(** * ICES data-schema scraper: a shallow embedding and its properties

    The development follows [src/ices_data_schema_scraper/scraper.py] and
    [cli.py].  Python strings are modelled as [string]; a character stands
    for a code point below 256, so the whitespace class used by [str.strip]
    and by the regular expression [\s] is its Latin-1 part.  Playwright
    calls are modelled by the value they return or the exception they
    raise ([outcome]); only exceptions of class [Exception] are modelled,
    which is what the [except Exception] clauses of the source catch. *)

From Stdlib Require Import String Ascii List Bool Arith Lia.
From stdpp Require Import gmap strings list.


#[local] Arguments String.append !_ _ / : simpl nomatch.
#[local] Arguments Ascii.eqb : simpl never.

(** ** Python string primitives *)

Module PyStr.

(** [str.isspace] on one character, restricted to code points below 256:
    TAB..CR, FS..US, SPACE, NEL and NBSP. *)
Definition is_space (c : ascii) : bool :=
  let n := nat_of_ascii c in
  ((9 <=? n)%nat && (n <=? 13)%nat) || ((28 <=? n)%nat && (n <=? 32)%nat)
  || (n =? 133)%nat || (n =? 160)%nat.

Definition newline : ascii := "010"%char.

Fixpoint all_chars (p : ascii -> bool) (s : string) : bool :=
  match s with
  | EmptyString => true
  | String c s' => p c && all_chars p s'
  end.

Definition not_char (x c : ascii) : bool := negb (Ascii.eqb c x).

Fixpoint lstrip (s : string) : string :=
  match s with
  | EmptyString => EmptyString
  | String c s' => if is_space c then lstrip s' else s
  end.

Fixpoint rstrip (s : string) : string :=
  match s with
  | EmptyString => EmptyString
  | String c s' =>
      match rstrip s' with
      | EmptyString => if is_space c then EmptyString else String c EmptyString
      | r => String c r
      end
  end.

(** [s.strip()] *)
Definition strip (s : string) : string := rstrip (lstrip s).

(** [s.split(sep)] for a one-character separator. *)
Fixpoint split (sep : ascii) (s : string) : list string :=
  match s with
  | EmptyString => [EmptyString]
  | String c s' =>
      if Ascii.eqb c sep then EmptyString :: split sep s'
      else match split sep s' with
           | l :: ls => String c l :: ls
           | [] => [String c EmptyString]
           end
  end.

(** [sep.join(l)] *)
Fixpoint join (sep : string) (l : list string) : string :=
  match l with
  | [] => EmptyString
  | [x] => x
  | x :: rest => x +:+ sep +:+ join sep rest
  end.

(** [s.startswith(p)] *)
Fixpoint startswith (p s : string) : bool :=
  match p, s with
  | EmptyString, _ => true
  | String a p', String b s' => Ascii.eqb a b && startswith p' s'
  | String _ _, EmptyString => false
  end.

(** [needle in s] *)
Fixpoint contains (needle s : string) : bool :=
  startswith needle s ||
  match s with
  | EmptyString => false
  | String _ s' => contains needle s'
  end.

(** [s.replace(old, new)] for a non-empty [old]: occurrences are found left
    to right and do not overlap.  [skip] counts the characters of the current
    occurrence that are still to be consumed. *)
Fixpoint replace_from (old new : string) (skip : nat) (s : string) : string :=
  match s with
  | EmptyString => EmptyString
  | String c s' =>
      match skip with
      | S k => replace_from old new k s'
      | O =>
          if startswith old s
          then new +:+ replace_from old new (String.length old - 1) s'
          else String c (replace_from old new 0 s')
      end
  end.

Definition replace (old new s : string) : string := replace_from old new 0 s.

(** [re.sub(pattern, repl, s)] for a pattern that never matches the empty
    string: [m s] is the length of the match of the pattern at the head of
    [s], if there is one. *)
Fixpoint re_sub_from (m : string -> option nat) (repl : string)
    (skip : nat) (s : string) : string :=
  match s with
  | EmptyString => EmptyString
  | String c s' =>
      match skip with
      | S k => re_sub_from m repl k s'
      | O =>
          match m s with
          | Some (S n) => repl +:+ re_sub_from m repl n s'
          | _ => String c (re_sub_from m repl 0 s')
          end
      end
  end.

Definition re_sub (m : string -> option nat) (repl s : string) : string :=
  re_sub_from m repl 0 s.

(** Number of leading characters satisfying [p]. *)
Fixpoint span (p : ascii -> bool) (s : string) : nat :=
  match s with
  | String c s' => if p c then S (span p s') else 0
  | EmptyString => 0
  end.

Fixpoint drop (n : nat) (s : string) : string :=
  match n, s with
  | S k, String _ s' => drop k s'
  | _, _ => s
  end.

(** The pattern [<br\s*/?>] under [re.IGNORECASE].  The whitespace class
    holds neither [/] nor [>], so the greedy [\s*] never has to give back. *)
Definition match_br (s : string) : option nat :=
  match s with
  | String lt (String b (String r rest)) =>
      if Ascii.eqb lt "<"
         && (Ascii.eqb b "b" || Ascii.eqb b "B")
         && (Ascii.eqb r "r" || Ascii.eqb r "R")
      then
        let n := span is_space rest in
        match lstrip rest with
        | String c rest' =>
            if Ascii.eqb c ">" then Some (3 + n + 1)
            else if Ascii.eqb c "/" && startswith ">" rest' then Some (3 + n + 2)
            else None
        | EmptyString => None
        end
      else None
  | _ => None
  end.

(** The pattern [<[^>]+>]. *)
Definition match_tag (s : string) : option nat :=
  match s with
  | String lt rest =>
      if Ascii.eqb lt "<" then
        let n := span (not_char ">") rest in
        match n, drop n rest with
        | S _, String gt _ => if Ascii.eqb gt ">" then Some (1 + n + 1) else None
        | _, _ => None
        end
      else None
  | EmptyString => None
  end.

(** The pattern [\n+]. *)
Definition match_newlines (s : string) : option nat :=
  match span (Ascii.eqb newline) s with
  | O => None
  | n => Some n
  end.

End PyStr.

Import PyStr.

Definition BR_TAG : string := "__BR_TAG__".
Definition NL : string := String newline EmptyString.

(** Lines 73-91 of [_extract_text_with_br_tags]: the processing of the inner
    HTML once it has been obtained. *)
Definition br_text (html_content : string) : string :=
  let html_content := re_sub match_br BR_TAG html_content in
  let text := re_sub match_tag "" html_content in
  let text := re_sub match_newlines " " text in
  let text := replace BR_TAG NL text in
  let lines := map strip (split newline text) in
  let lines := filter (fun line => line <> "") lines in
  let text := join NL lines in
  strip text.

(** ** Calls that may raise *)

Inductive outcome (A : Type) : Type :=
  | Ok (a : A)
  | Raise (e : string).
Arguments Ok {A} a.
Arguments Raise {A} e.

Global Instance outcome_ret : MRet outcome := fun A a => Ok a.

Global Instance outcome_bind : MBind outcome := fun A B k c =>
  match c with
  | Ok a => k a
  | Raise e => Raise e
  end.

(** [try: body / except Exception as e: handler(e)] *)
Definition try_except {A : Type} (body : outcome A) (handler : string -> outcome A)
  : outcome A :=
  match body with
  | Ok a => Ok a
  | Raise e => handler e
  end.

(** [x or ""] for an optional string. *)
Definition or_empty (x : option string) : string :=
  match x with
  | Some s => s
  | None => ""
  end.

(** ** The browser, as far as the scraper observes it *)

(** A Playwright locator: what [inner_html()] and [text_content()] return. *)
Record Locator : Type := {
  inner_html : outcome string;
  text_content : outcome (option string)
}.

(** A locator that matches nothing: every read times out. *)
Definition no_element : Locator :=
  {| inner_html := Raise "Timeout"; text_content := Raise "Timeout" |}.

Definition _extract_text_with_br_tags (locator : Locator) : outcome string :=
  try_except
    (html_content ← inner_html locator;
     Ok (br_text html_content))
    (fun _ =>
       try_except
         (t ← text_content locator;
          let text := or_empty t in
          let text := re_sub match_newlines " " text in
          Ok (strip text))
         (fun _ => Ok "")).

(** *** Detail view *)

(** A row of [page.locator("table tr")]: [row.locator("td")], whose
    [count()] may raise. *)
Record DetailRow : Type := {
  detail_cells : outcome (list Locator)
}.

(** The [if]/[elif] chain of lines 467-484: the key written for a label. *)
Definition label_key (label_text : string) : option string :=
  if contains "Label" label_text then Some "label"
  else if contains "Type Length" label_text then Some "type_length"
  else if contains "Available In" label_text then Some "available_in"
  else if contains "Format" label_text then Some "format"
  else if contains "Value" label_text then Some "value"
  else if contains "Links" label_text then Some "links"
  else None.

(** One iteration of the loop of [_extract_detailed_view]; both [except]
    clauses [continue] with [data] unchanged. *)
Definition detail_row_step (data : gmap string string) (row : DetailRow)
  : gmap string string :=
  let body :=
    cells ← detail_cells row;
    if (2 <=? length cells)%nat then
      let label_cell := nth 0 cells no_element in
      let value_cell := nth 1 cells no_element in
      let texts :=
        try_except
          (t ← text_content label_cell;
           let label_text := strip (or_empty t) in
           value_text ← _extract_text_with_br_tags value_cell;
           Ok (Some (label_text, value_text)))
          (fun _ => Ok None) in
      lv ← texts;
      match lv with
      | None => Ok data
      | Some (label_text, value_text) =>
          match label_key label_text with
          | Some key => Ok (<[key := value_text]> data)
          | None => Ok data
          end
      end
    else Ok data in
  match try_except body (fun _ => Ok data) with
  | Ok d => d
  | Raise _ => data
  end.

(** [rows] is [page.locator("table tr")] with its [count()], which is
    outside every [try]. *)
Definition _extract_detailed_view (rows : outcome (list DetailRow))
  : outcome (gmap string string) :=
  rows ← rows;
  Ok (fold_left detail_row_step rows ∅).

(** A "more" control. *)
Record Button : Type := {
  is_visible : outcome bool;
  click : outcome unit
}.

Fixpoint click_visible (buttons : list Button) : outcome unit :=
  match buttons with
  | [] => Ok tt
  | button :: rest =>
      v ← is_visible button;
      _ ← (if (v : bool)
            then try_except (click button) (fun _ => Ok tt)
            else Ok tt);
      click_visible rest
  end.

(** One entry per selector of [more_selectors]: the buttons it locates, or
    the exception of its [count()]. *)
Fixpoint _handle_more_buttons (selectors : list (outcome (list Button)))
  : outcome unit :=
  match selectors with
  | [] => Ok tt
  | more_buttons :: rest =>
      buttons ← more_buttons;
      _ ← click_visible buttons;
      _handle_more_buttons rest
  end.

(** What the browser shows while one variable is visited. *)
Record DetailVisit : Type := {
  navigation : outcome unit;                      (* lines 393-409 *)
  first_view : outcome (list DetailRow);
  more_controls : list (outcome (list Button));
  expanded_view : outcome (list DetailRow)
}.

Definition _scrape_variable_details (visit : DetailVisit)
  : outcome (gmap string string) :=
  _ ← navigation visit;
  _ ← _extract_detailed_view (first_view visit);
  _ ← _handle_more_buttons (more_controls visit);
  _extract_detailed_view (expanded_view visit).

(** *** Listing view *)

Record ListingRow : Type := {
  link_count : outcome nat;              (* row.locator("td a").count() *)
  header_count : outcome nat;            (* row.locator("th").count() *)
  name_link : Locator;                   (* first link of the first cell *)
  listing_cells : outcome (list Locator) (* row.locator("td") *)
}.

Record VariableSummary : Type := {
  name : string;
  description : string;
  type : string
}.

(** The body of the [try] of lines 326-360: [None] when the row is not a
    data row. *)
Definition collect_row (row : ListingRow) : outcome (option VariableSummary) :=
  links ← link_count row;
  headers ← header_count row;
  let has_link := (0 <? links)%nat in
  let has_header := (0 <? headers)%nat in
  if has_link && negb has_header then
    variable_name ← _extract_text_with_br_tags (name_link row);
    cells ← listing_cells row;
    let cell_count := length cells in
    main_description ←
      (if (2 <=? cell_count)%nat
       then _extract_text_with_br_tags (nth 1 cells no_element)
       else Ok "");
    main_type ←
      (if (3 <=? cell_count)%nat
       then _extract_text_with_br_tags (nth 2 cells no_element)
       else Ok "");
    Ok (Some {| name := variable_name;
                description := main_description;
                type := main_type |})
  else Ok None.

Definition collect_step (variables : list VariableSummary) (row : ListingRow)
  : list VariableSummary :=
  match try_except (collect_row row) (fun _ => Ok None) with
  | Ok (Some v) => variables ++ [v]
  | _ => variables
  end.

(** [table] is the rows of the variables table, or the exception of waiting
    for the table or counting its rows (lines 306-313, outside the [try]). *)
Definition _collect_all_variables (table : outcome (list ListingRow))
  : outcome (list VariableSummary) :=
  all_rows ← table;
  Ok (fold_left collect_step all_rows []).

(** ** The output file *)

(** The file is modelled at the level of CSV records, as a reader and an
    appending writer find it.  [Record_] is a complete record; a blank line
    is the record [[]].  [Undecodable] stands for bytes that are not UTF-8
    (or for a file that cannot be opened for reading, with nothing before
    it).  The text layer decodes the file block by block, so the read of the
    block that holds such bytes fails as a whole: of the complete records
    before the bytes, the last [lost] ones, which do not end before that
    block, are never handed over.  [Unfinished] is the end of a file that
    stops inside a record (a last line without its terminator, an open
    quote): text appended to the file continues that record, and
    [reads rows] is what the reader makes of this end followed by the text of
    [rows].  The fields of complete records are taken to survive the quoting
    of [csv.writer] and [csv.reader] unchanged. *)
Inductive stored : Type :=
  | Record_ (fields : list string)
  | Undecodable (e : string) (lost : nat)
  | Unfinished (reads : list (list string) -> list (list string)).

Definition fieldnames : list string :=
  ["variable_name"; "main_description"; "main_type"; "label"; "type_length";
   "available_in"; "format"; "value"; "links"].

(** The records [csv.reader] hands over, in order, and how its iteration
    ends: at the end of the file, or with the exception of the read that
    reaches undecodable bytes. *)
Fixpoint reader (content : list stored) (yielded : list (list string))
  : list (list string) * outcome unit :=
  match content with
  | [] => (yielded, Ok tt)
  | Record_ fields :: rest => reader rest (yielded ++ [fields])
  | Undecodable e lost :: _ => (take (length yielded - lost) yielded, Raise e)
  | Unfinished reads :: _ => (yielded ++ reads [], Ok tt)
  end.

(** The dictionary [csv.DictReader] builds for a record: [dict(zip(fieldnames,
    row))], then [restval = None] for the field names beyond the record.  The
    entry for the surplus fields of a long record has the key [None], which no
    string key reaches, and is left out. *)
Definition dict_row (names row : list string) : gmap string (option string) :=
  let d := fold_left (fun d kv => <[kv.1 := Some kv.2]> d) (zip names row) ∅ in
  fold_left (fun d key => <[key := None]> d) (List.skipn (length row) names) d.

(** The loop of lines 34-37 over the records handed over after the header;
    [csv.DictReader] passes over the blank ones. *)
Fixpoint read_rows (names : list string) (existing_variables : gset string)
    (rows : list (list string)) : gset string :=
  match rows with
  | [] => existing_variables
  | [] :: rest => read_rows names existing_variables rest
  | row :: rest =>
      let row := dict_row names row in
      let existing_variables :=
        match row !! "variable_name" with
        | Some (Some variable_name) =>
            if String.eqb variable_name "" then existing_variables
            else {[strip variable_name]} ∪ existing_variables
        | _ => existing_variables
        end in
      read_rows names existing_variables rest
  end.

(** [csv.DictReader] takes the first record as the field names.  The set is
    returned together with the exception that ended the loop, if any: it is
    the local variable both [return] statements read. *)
Definition read_csv (content : list stored) : gset string * outcome unit :=
  let '(records, ending) := reader content [] in
  match records with
  | [] => (∅, ending)
  | names :: rows => (read_rows names ∅ rows, ending)
  end.

(** [csv_path] is the content of the file at that path, [None] when no file
    exists there. *)
Definition _read_existing_variables (csv_path : option (list stored))
  : gset string :=
  match csv_path with
  | None => ∅
  | Some content =>
      match read_csv content with
      | (existing_variables, Ok _) => existing_variables
      | (existing_variables, Raise _) => existing_variables
      end
  end.

(** The text of a row put after the content of a file: a record of its own,
    unless the file ends inside a record, which the text then continues. *)
Fixpoint append_row (content : list stored) (fields : list string)
  : list stored :=
  match content with
  | [] => [Record_ fields]
  | [Unfinished reads] => [Unfinished (fun rows => reads (fields :: rows))]
  | x :: rest => x :: append_row rest fields
  end.

(** A file opened in append mode: what is on disk, and the rows the process
    still holds in its buffer. *)
Record AppendFile : Type := {
  on_disk : list stored;
  buffered : list (list string)
}.

(** The file object [csv_path.open("a")] returns; whether the call returns
    is [opening] of the [Disk] below. *)
Definition open_append (csv_path : option (list stored)) : AppendFile :=
  {| on_disk := match csv_path with Some content => content | None => [] end;
     buffered := [] |}.

Definition write (csvfile : AppendFile) (fields : list string) : AppendFile :=
  {| on_disk := on_disk csvfile;
     buffered := buffered csvfile ++ [fields] |}.

Definition flush (csvfile : AppendFile) : AppendFile :=
  {| on_disk := fold_left append_row (buffered csvfile) (on_disk csvfile);
     buffered := [] |}.

(** Leaving the [with] block closes the file, which flushes it. *)
Definition close (csvfile : AppendFile) : list stored :=
  on_disk (flush csvfile).

Definition writeheader (csvfile : AppendFile) : AppendFile :=
  write csvfile fieldnames.

(** [detailed_data.get(key, "")] *)
Definition get (detailed_data : gmap string string) (key : string) : string :=
  default "" (detailed_data !! key).

(** [row_data] of lines 274-284, in the order [csv.DictWriter] writes it. *)
Definition row_data (variable_info : VariableSummary)
    (detailed_data : gmap string string) : list string :=
  [name variable_info; description variable_info; type variable_info;
   get detailed_data "label"; get detailed_data "type_length";
   get detailed_data "available_in"; get detailed_data "format";
   get detailed_data "value"; get detailed_data "links"].

(** ** The run *)

(** The site as one run sees it. *)
Record Site : Type := {
  reach_dataset : outcome unit;                  (* lines 120-187 *)
  variables_table : outcome (list ListingRow);
  visit : string -> DetailVisit                  (* by variable name *)
}.

(** The path of the output file as the calls of one run find it: whether the
    file can be opened for appending (line 237), whether the n-th row of the
    run can be written and flushed (lines 285-286), whether the file can be
    closed on leaving the [with] block, and what the file holds after a write
    or a close that failed, given what it held before. *)
Record Disk : Type := {
  opening : outcome unit;
  writing : nat -> outcome unit;
  closing : outcome unit;
  torn : list stored -> list stored
}.

(** The loop of lines 255-287; [written] counts the rows of this run.  No
    exception is caught here: one raised by [_scrape_variable_details] or by
    the writing of the row leaves the loop. *)
Fixpoint process_variables (disk : Disk) (site : Site) (csvfile : AppendFile)
    (written : nat) (variables_to_process : list VariableSummary)
  : AppendFile * outcome unit :=
  match variables_to_process with
  | [] => (csvfile, Ok tt)
  | variable_info :: rest =>
      match _scrape_variable_details (visit site (name variable_info)) with
      | Raise e => (csvfile, Raise e)
      | Ok detailed_data =>
          match writing disk written with
          | Raise e =>
              ({| on_disk := torn disk (on_disk csvfile); buffered := [] |},
               Raise e)
          | Ok _ =>
              let csvfile :=
                write csvfile (row_data variable_info detailed_data) in
              let csvfile := flush csvfile in
              process_variables disk site csvfile (S written) rest
          end
      end
  end.

(** [v["name"] not in existing_variables], for the list comprehension of
    lines 223-225. *)
Definition not_scraped (existing_variables : gset string) (v : VariableSummary)
  : bool :=
  bool_decide (name v ∉ existing_variables).

Definition pending (variables : list VariableSummary)
    (existing_variables : gset string) : list VariableSummary :=
  List.filter (not_scraped existing_variables) variables.

(** [scrape_ices_data] on a given path: the file at [output_csv] before the
    run, the file after it, and how the [try] block of lines 139-295 ends
    (the [finally] that closes the browser comes after it).  The file is
    opened after the listing is collected and the ledger read; a failure to
    open it leaves the path as it was. *)
Definition scrape_ices_data_on (disk : Disk) (site : Site)
    (output_csv : option (list stored)) : option (list stored) * outcome unit :=
  match reach_dataset site with
  | Raise e => (output_csv, Raise e)
  | Ok _ =>
      let file_exists := bool_decide (is_Some output_csv) in
      match _collect_all_variables (variables_table site) with
      | Raise e => (output_csv, Raise e)
      | Ok variables =>
          let existing_variables :=
            if file_exists then _read_existing_variables output_csv else ∅ in
          let variables_to_process := pending variables existing_variables in
          match opening disk with
          | Raise e => (output_csv, Raise e)
          | Ok _ =>
              let csvfile := open_append output_csv in
              let csvfile :=
                if file_exists then csvfile else writeheader csvfile in
              let '(csvfile, result) :=
                process_variables disk site csvfile 0 variables_to_process in
              match closing disk with
              | Ok _ => (Some (close csvfile), result)
              | Raise e => (Some (torn disk (on_disk csvfile)), Raise e)
              end
          end
      end
  end.

(** A path on which opening, writing and closing succeed. *)
Definition sound : Disk :=
  {| opening := Ok tt; writing := fun _ => Ok tt; closing := Ok tt;
     torn := fun content => content |}.

(** [scrape_ices_data] on such a path. *)
Definition scrape_ices_data (site : Site) (output_csv : option (list stored))
  : option (list stored) * outcome unit :=
  scrape_ices_data_on sound site output_csv.

(** ** The command line: the default output name *)

Record date : Type := { year : nat; month : nat; day : nat }.

Definition digit (n : nat) : ascii := ascii_of_nat (48 + n mod 10).

(** [%02d] and [%04d] for numbers that fit. *)
Definition pad2 (n : nat) : string :=
  String (digit (n / 10)) (String (digit n) "").
Definition pad4 (n : nat) : string :=
  String (digit (n / 1000)) (String (digit (n / 100)) (pad2 n)).

(** [date.isoformat()] *)
Definition isoformat (d : date) : string :=
  pad4 (year d) +:+ "-" +:+ pad2 (month d) +:+ "-" +:+ pad2 (day d).

(** Lines 64-70 of [scrape]: the output path handed to the scraper. *)
Definition output_path (library_name dataset_name : string) (date_obj : date)
    (output_csv : option string) : string :=
  let date_str := isoformat date_obj in
  match output_csv with
  | None =>
      let safe_dataset_name := replace ":" "-" (replace " " "-" dataset_name) in
      library_name +:+ "__" +:+ safe_dataset_name +:+ "__" +:+ date_str +:+ ".csv"
  | Some path => path
  end.

(** ** Notions used to state the properties *)

(** A string that does not begin with whitespace. *)
Definition starts_clean (s : string) : Prop :=
  match s with
  | EmptyString => True
  | String c _ => is_space c = false
  end.

(** A run of [n] line separators. *)
Fixpoint newlines (n : nat) : string :=
  match n with
  | O => EmptyString
  | S k => String newline (newlines k)
  end.

(** The text [_extract_text_with_br_tags] returns for a locator. *)
Definition cell_text (locator : Locator) : string :=
  match inner_html locator with
  | Ok html_content => br_text html_content
  | Raise _ =>
      match text_content locator with
      | Ok t => strip (re_sub match_newlines " " (or_empty t))
      | Raise _ => ""
      end
  end.

(** The last character of a string. *)
Fixpoint last_char (s : string) : option ascii :=
  match s with
  | EmptyString => None
  | String c EmptyString => Some c
  | String _ s' => last_char s'
  end.

(** A string that does not end with whitespace. *)
Definition ends_clean (s : string) : Prop :=
  match last_char s with
  | Some c => is_space c = false
  | None => True
  end.

(** A string with no whitespace character at either end. *)
Definition bare (s : string) : Prop := starts_clean s /\ ends_clean s.

(** [x] is [v] without the whitespace that surrounds it: [v] is [x] between
    two runs of whitespace characters, and [x] has none at either end. *)
Definition trimmed_of (v x : string) : Prop :=
  (exists a b, v = a +:+ x +:+ b
     /\ all_chars is_space a = true /\ all_chars is_space b = true)
  /\ bare x.

(** The records the reader hands over from a file. *)
Definition yielded (content : list stored) : list (list string) :=
  (reader content []).1.

(** The file ends inside a record. *)
Definition ends_inside_record (content : list stored) : bool :=
  match last content with
  | Some (Unfinished _) => true
  | _ => false
  end.

(** What the reader makes of a last line that holds the given fields and
    has no terminator, followed by the text of appended rows: the first field
    of the first row continues the last field of the line.  This is for
    fields that need no quoting. *)
Definition glued (fields : list string) (rows : list (list string))
  : list (list string) :=
  match rows with
  | [] => [fields]
  | row :: more =>
      (removelast fields ++ [List.last fields "" +:+ hd "" row] ++ tl row)
      :: more
  end.

(** Opening, every write and closing succeed. *)
Definition writable (disk : Disk) : Prop :=
  opening disk = Ok tt /\ (forall n, writing disk n = Ok tt)
  /\ closing disk = Ok tt.

(** The sanitised dataset name, in the words of the description: every
    space and every colon becomes a hyphen. *)
Fixpoint map_chars (f : ascii -> ascii) (s : string) : string :=
  match s with
  | EmptyString => EmptyString
  | String c s' => String (f c) (map_chars f s')
  end.

Definition hyphenate (c : ascii) : ascii :=
  if Ascii.eqb c " " || Ascii.eqb c ":" then "-"%char else c.

(** Reading back a decimal numeral. *)
Fixpoint decimal_from (acc : nat) (s : string) : option nat :=
  match s with
  | EmptyString => Some acc
  | String c s' =>
      let n := nat_of_ascii c in
      if (48 <=? n)%nat && (n <=? 57)%nat
      then decimal_from (10 * acc + (n - 48)) s'
      else None
  end.

Definition decimal (s : string) : option nat := decimal_from 0 s.

(** A data row, in the words of the description: at least one link in a
    cell and no header cell. *)
Definition is_data_row (row : ListingRow) : bool :=
  match link_count row, header_count row with
  | Ok (S _), Ok O => true
  | _, _ => false
  end.

(** The normalised text of the cell at [index], empty when the cell is
    absent. *)
Definition text_at (cells : list Locator) (index : nat) : string :=
  match cells !! index with
  | Some cell => cell_text cell
  | None => ""
  end.

(** The summary a row yields: none when it is not a data row or when
    counting its cells raises. *)
Definition row_summary (row : ListingRow) : option VariableSummary :=
  if is_data_row row then
    match listing_cells row with
    | Ok cells =>
        Some {| name := cell_text (name_link row);
                description := text_at cells 1;
                type := text_at cells 2 |}
    | Raise _ => None
    end
  else None.

(** The keywords and their fields, in the order they are tried. *)
Definition keywords : list (string * string) :=
  [("Label", "label"); ("Type Length", "type_length");
   ("Available In", "available_in"); ("Format", "format");
   ("Value", "value"); ("Links", "links")].

(** The field of the first keyword, in that order, the label contains. *)
Definition first_keyword (label_text : string) : option string :=
  snd <$> List.find (fun kw => contains kw.1 label_text) keywords.

(** What a row of the detail view contributes: it needs two cells, a label
    that can be read and a keyword in the label. *)
Definition row_field (row : DetailRow) : option (string * string) :=
  match detail_cells row with
  | Ok (label_cell :: value_cell :: _) =>
      match text_content label_cell with
      | Ok t =>
          match first_keyword (strip (or_empty t)) with
          | Some key => Some (key, cell_text value_cell)
          | None => None
          end
      | Raise _ => None
      end
  | _ => None
  end.

(** The values the rows contribute to [key], in row order. *)
Definition values_for (key : string) (rows : list DetailRow) : list string :=
  omap (fun row =>
          match row_field row with
          | Some (k, v) => if decide (k = key) then Some v else None
          | None => None
          end) rows.

(** A cell holding plain text, and a detail row of a label and a value. *)
Definition text_cell (s : string) : Locator :=
  {| inner_html := Ok s; text_content := Ok (Some s) |}.

Definition labelled_row (label value : string) : DetailRow :=
  {| detail_cells := Ok [text_cell label; text_cell value] |}.

(** The detail fields scraped for a variable, none when scraping raises. *)
Definition detail_of (site : Site) (v : VariableSummary) : gmap string string :=
  match _scrape_variable_details (visit site (name v)) with
  | Ok detailed_data => detailed_data
  | Raise _ => ∅
  end.

(** The rows of the given variables, and the records they make. *)
Definition rows_of (site : Site) (variables : list VariableSummary)
  : list (list string) :=
  map (fun v => row_data v (detail_of site v)) variables.

Definition output_rows (site : Site) (variables : list VariableSummary)
  : list stored :=
  map (fun v => Record_ (row_data v (detail_of site v))) variables.

(** The variables reached before the first one whose scraping raises. *)
Fixpoint completed (site : Site) (variables : list VariableSummary)
  : list VariableSummary :=
  match variables with
  | [] => []
  | v :: rest =>
      match _scrape_variable_details (visit site (name v)) with
      | Ok _ => v :: completed site rest
      | Raise _ => []
      end
  end.

(** A listing row with a link and three cells of plain text. *)
Definition listed (variable_name main_description main_type : string)
  : ListingRow :=
  {| link_count := Ok 1; header_count := Ok 0;
     name_link := text_cell variable_name;
     listing_cells := Ok [text_cell variable_name; text_cell main_description;
                          text_cell main_type] |}.

(** A detail view that is reached and shows the given rows. *)
Definition shows (rows : list DetailRow) : DetailVisit :=
  {| navigation := Ok tt; first_view := Ok rows; more_controls := [];
     expanded_view := Ok rows |}.

(** A variable whose link cannot be clicked. *)
Definition unreachable : DetailVisit :=
  {| navigation := Raise "Timeout 30000ms exceeded";
     first_view := Ok []; more_controls := []; expanded_view := Ok [] |}.

(** What the file holds before the rows of this run. *)
Definition file_start (output_csv : option (list stored)) : list stored :=
  match output_csv with
  | None => [Record_ fieldnames]
  | Some content => content
  end.

(** A string without surrounding whitespace. *)
Definition trimmed (s : string) : Prop := starts_clean s /\ rstrip s = s.

(** *** Markup fragments *)

(** A fragment is a sequence of text and of elements [<body>]. *)
Inductive item : Type :=
  | Text (t : string)
  | Element (body : string).

Definition render_item (i : item) : string :=
  match i with
  | Text t => t
  | Element body => "<" +:+ body +:+ ">"
  end.

Fixpoint render (items : list item) : string :=
  match items with
  | [] => ""
  | i :: rest => render_item i +:+ render rest
  end.

(** The body of a line-break marker: [br] in either case, whitespace, and
    possibly a closing slash. *)
Definition is_break (body : string) : bool :=
  match body with
  | String b (String r rest) =>
      (Ascii.eqb b "b" || Ascii.eqb b "B")
      && (Ascii.eqb r "r" || Ascii.eqb r "R")
      && (String.eqb (lstrip rest) "" || String.eqb (lstrip rest) "/")
  | _ => false
  end.

Definition no_angle (c : ascii) : bool := not_char "<" c && not_char ">" c.

(** Text holds no [<]; the body of an element is not empty and holds no
    angle bracket. *)
Definition well_formed (i : item) : bool :=
  match i with
  | Text t => all_chars (not_char "<") t
  | Element body => negb (String.eqb body "") && all_chars no_angle body
  end.

(** The text of each line of a fragment: the markers separate the lines, the
    other elements leave nothing. *)
Fixpoint line_texts (items : list item) : list string :=
  match items with
  | [] => [""]
  | Text t :: rest =>
      match line_texts rest with
      | l :: ls => (t +:+ l) :: ls
      | [] => [t]
      end
  | Element body :: rest =>
      if is_break body then "" :: line_texts rest else line_texts rest
  end.

(** The text expected for a line: runs of line separators become one space,
    and the line is stripped. *)
Definition line_text (l : string) : string :=
  strip (re_sub match_newlines " " l).

(** The text expected for a fragment. *)
Definition fragment_text (items : list item) : string :=
  join NL (filter (fun line => line <> "") (map line_text (line_texts items))).



(** A fragment with its markers replaced by the placeholder. *)
Fixpoint marked (items : list item) : string :=
  match items with
  | [] => ""
  | Text t :: rest => t +:+ marked rest
  | Element body :: rest =>
      (if is_break body then BR_TAG else "<" +:+ body +:+ ">") +:+ marked rest
  end.

(** The lines of the result: the stripped, non-empty pieces of the text
    between the line separators that stand for the markers. *)
Definition result_lines (html_content : string) : list string :=
  filter (fun line => line <> "")
    (map strip
       (split newline
          (replace BR_TAG NL
             (re_sub match_newlines " "
                (re_sub match_tag "" (re_sub match_br BR_TAG html_content)))))).



(** A button whose visibility can be queried, and a selector whose buttons
    can be counted and queried. *)
Definition visibility_known (button : Button) : bool :=
  match is_visible button with
  | Ok _ => true
  | Raise _ => false
  end.

Definition queries_answered (more_buttons : outcome (list Button)) : bool :=
  match more_buttons with
  | Ok buttons => forallb visibility_known buttons
  | Raise _ => false
  end.

(** The keys a detail can have. *)
Definition detail_keys : list string :=
  ["label"; "type_length"; "available_in"; "format"; "value"; "links"].

Definition is_element (i : item) : bool :=
  match i with
  | Element _ => true
  | Text _ => false
  end.

(** A keyword without surrounding whitespace. *)
Definition clean_word (kw : string) : Prop :=
  kw <> "" /\ starts_clean kw /\ rstrip kw = kw.

(** * Properties *)

(** ** Facts about the string primitives *)

Section StringFacts.

Lemma append_nil_r (s : string) : s +:+ "" = s.
Proof. induction s as [|c s IH]; simpl; [reflexivity | now rewrite IH]. Qed.

Lemma append_assoc (s t u : string) : (s +:+ t) +:+ u = s +:+ (t +:+ u).
Proof. induction s as [|c s IH]; simpl; [reflexivity | now rewrite IH]. Qed.

Lemma append_length (s t : string) :
  String.length (s +:+ t) = String.length s + String.length t.
Proof. induction s as [|c s IH]; simpl; [reflexivity | now rewrite IH]. Qed.

Lemma startswith_append (s t : string) : startswith s (s +:+ t) = true.
Proof.
  induction s as [|c s IH]; simpl; [reflexivity |].
  now rewrite Ascii.eqb_refl.
Qed.


(** *** [strip] *)

Lemma lstrip_starts_clean (s : string) : starts_clean (lstrip s).
Proof.
  induction s as [|c s IH]; simpl; [exact I |].
  destruct (is_space c) eqn:E; [exact IH | exact E].
Qed.

Lemma lstrip_clean (s : string) : starts_clean s -> lstrip s = s.
Proof. destruct s as [|c s]; simpl; [reflexivity |]. now intros ->. Qed.

Lemma rstrip_starts_clean (s : string) : starts_clean s -> starts_clean (rstrip s).
Proof.
  destruct s as [|c s]; simpl; [trivial |]. intros E.
  destruct (rstrip s); [rewrite E |]; exact E.
Qed.

Lemma rstrip_idem (s : string) : rstrip (rstrip s) = rstrip s.
Proof.
  induction s as [|c s IH]; simpl; [reflexivity |].
  destruct (rstrip s) as [|d r] eqn:E.
  - destruct (is_space c) eqn:Ec; simpl; [reflexivity | now rewrite Ec].
  - simpl in IH |- *. now rewrite IH.
Qed.

Lemma strip_starts_clean (s : string) : starts_clean (strip s).
Proof. apply rstrip_starts_clean, lstrip_starts_clean. Qed.

Lemma strip_idem (s : string) : strip (strip s) = strip s.
Proof.
  unfold strip at 1. rewrite (lstrip_clean (strip s)) by apply strip_starts_clean.
  apply rstrip_idem.
Qed.

Lemma strip_empty : strip "" = "".
Proof. reflexivity. Qed.

Lemma all_chars_lstrip (p : ascii -> bool) (s : string) :
  all_chars p s = true -> all_chars p (lstrip s) = true.
Proof.
  induction s as [|c s IH]; simpl; [trivial |].
  intros [Hc Hs]%andb_true_iff.
  destruct (is_space c); [auto | simpl; now rewrite Hc, Hs].
Qed.

Lemma all_chars_rstrip (p : ascii -> bool) (s : string) :
  all_chars p s = true -> all_chars p (rstrip s) = true.
Proof.
  induction s as [|c s IH]; simpl; [trivial |].
  intros [Hc Hs]%andb_true_iff. specialize (IH Hs).
  destruct (rstrip s) as [|d r].
  - destruct (is_space c); simpl; [reflexivity | now rewrite Hc].
  - simpl in IH |- *. now rewrite Hc, IH.
Qed.

Lemma all_chars_strip (p : ascii -> bool) (s : string) :
  all_chars p s = true -> all_chars p (strip s) = true.
Proof. intros H. apply all_chars_rstrip, all_chars_lstrip, H. Qed.

Lemma rstrip_append (s t : string) :
  rstrip t <> "" -> rstrip (s +:+ t) = s +:+ rstrip t.
Proof.
  intros Ht. induction s as [|c s IH]; simpl; [reflexivity |].
  rewrite IH. destruct (s +:+ rstrip t) eqn:E; [| reflexivity].
  destruct s; simpl in E; [contradiction | discriminate].
Qed.

(** *** What [strip] removes and what it leaves *)

Lemma last_char_cons (c : ascii) (s : string) :
  s <> "" -> last_char (String c s) = last_char s.
Proof. destruct s; [contradiction | reflexivity]. Qed.

Lemma rstrip_ends_clean (s : string) : ends_clean (rstrip s).
Proof.
  unfold ends_clean. induction s as [|c s IH]; simpl; [exact I |].
  destruct (rstrip s) as [|d r] eqn:E.
  - destruct (is_space c) eqn:Ec; simpl; [exact I | exact Ec].
  - rewrite last_char_cons by discriminate. exact IH.
Qed.

Lemma ends_clean_rstrip (s : string) : ends_clean s -> rstrip s = s.
Proof.
  unfold ends_clean. induction s as [|c s IH]; [reflexivity |].
  destruct s as [|d s'].
  - simpl. now intros ->.
  - rewrite last_char_cons by discriminate. intros H.
    change (rstrip (String c (String d s')))
      with (match rstrip (String d s') with
            | EmptyString => if is_space c then EmptyString else String c EmptyString
            | r => String c r
            end).
    now rewrite (IH H).
Qed.

Lemma strip_bare (s : string) : bare (strip s).
Proof. split; [apply strip_starts_clean | apply rstrip_ends_clean]. Qed.

Lemma bare_strip (s : string) : bare s -> strip s = s.
Proof.
  intros [Hs He]. unfold strip. rewrite (lstrip_clean s Hs).
  now apply ends_clean_rstrip.
Qed.

Lemma lstrip_removed (s : string) :
  exists a, s = a +:+ lstrip s /\ all_chars is_space a = true.
Proof.
  induction s as [|c s (a & Ha & Hsp)]; [now exists "" |].
  simpl. destruct (is_space c) eqn:Ec.
  - exists (String c a). simpl. now rewrite <- Ha, Ec, Hsp.
  - now exists "".
Qed.

Lemma rstrip_removed (s : string) :
  exists b, s = rstrip s +:+ b /\ all_chars is_space b = true.
Proof.
  induction s as [|c s (b & Hb & Hsp)]; [now exists "" |].
  simpl. destruct (rstrip s) as [|d r] eqn:E.
  - simpl in Hb. subst b. destruct (is_space c) eqn:Ec.
    + exists (String c s). simpl. now rewrite Ec, Hsp.
    + now exists s.
  - exists b. simpl in Hb |- *. now rewrite <- Hb.
Qed.

(** [strip] removes whitespace at the two ends, and all of it. *)
Lemma strip_trimmed_of (v : string) : trimmed_of v (strip v).
Proof.
  split; [| apply strip_bare].
  destruct (lstrip_removed v) as (a & Ha & Hsa).
  destruct (rstrip_removed (lstrip v)) as (b & Hb & Hsb).
  exists a, b. split; [| auto]. unfold strip. now rewrite <- Hb.
Qed.

Lemma lstrip_spaces (a s : string) :
  all_chars is_space a = true -> lstrip (a +:+ s) = lstrip s.
Proof.
  induction a as [|c a IH]; simpl; [reflexivity |].
  intros [Hc Ha]%andb_true_iff. rewrite Hc. auto.
Qed.

Lemma rstrip_spaces (b : string) :
  all_chars is_space b = true -> rstrip b = "".
Proof.
  induction b as [|c b IH]; simpl; [reflexivity |].
  intros [Hc Hb]%andb_true_iff. now rewrite IH, Hc.
Qed.

Lemma rstrip_append_spaces (s b : string) :
  all_chars is_space b = true -> rstrip (s +:+ b) = rstrip s.
Proof.
  intros Hb. induction s as [|c s IH]; simpl; [now apply rstrip_spaces |].
  now rewrite IH.
Qed.

(** Nothing but [strip v] is [v] without its surrounding whitespace. *)
Lemma trimmed_of_strip (v x : string) : trimmed_of v x -> x = strip v.
Proof.
  intros [(a & b & -> & Ha & Hb) [Hs He]]. unfold strip.
  rewrite lstrip_spaces by exact Ha.
  destruct x as [|c x].
  - simpl. clear Hs He.
    assert (lstrip b = "") as ->; [| reflexivity].
    induction b as [|d b IH]; simpl; [reflexivity |].
    simpl in Hb. apply andb_true_iff in Hb as [-> Hb]. auto.
  - simpl in Hs. cbn [String.append lstrip]. rewrite Hs.
    change (String c (x +:+ b)) with (String c x +:+ b).
    rewrite rstrip_append_spaces by exact Hb.
    symmetry. now apply ends_clean_rstrip.
Qed.

End StringFacts.

(** ** The default output name *)

Section OutputName.

Lemma replace_char (x y : ascii) (s : string) :
  replace (String x "") (String y "") s
  = map_chars (fun c => if Ascii.eqb x c then y else c) s.
Proof.
  unfold replace. induction s as [|c s IH]; simpl; [reflexivity |].
  destruct (Ascii.eqb x c); simpl; now rewrite IH.
Qed.

Lemma map_chars_compose (f g : ascii -> ascii) (s : string) :
  map_chars g (map_chars f s) = map_chars (fun c => g (f c)) s.
Proof. induction s as [|c s IH]; simpl; [reflexivity | now rewrite IH]. Qed.

Lemma map_chars_ext (f g : ascii -> ascii) (s : string) :
  (forall c, f c = g c) -> map_chars f s = map_chars g s.
Proof.
  intros E. induction s as [|c s IH]; simpl; [reflexivity | now rewrite E, IH].
Qed.

Lemma safe_dataset_name_hyphenated (dataset_name : string) :
  replace ":" "-" (replace " " "-" dataset_name) = map_chars hyphenate dataset_name.
Proof.
  rewrite !replace_char, map_chars_compose. apply map_chars_ext.
  intros c. unfold hyphenate.
  destruct (Ascii.eqb_spec " " c) as [<- | Hs]; [reflexivity |].
  destruct (Ascii.eqb_spec c " ") as [-> | _]; [contradiction |].
  destruct (Ascii.eqb_spec ":" c) as [<- | Hc]; [reflexivity |].
  destruct (Ascii.eqb_spec c ":") as [-> | _]; [contradiction | reflexivity].
Qed.

Lemma nat_of_digit (n : nat) : nat_of_ascii (digit n) = 48 + n mod 10.
Proof.
  unfold digit. apply nat_ascii_embedding.
  pose proof (Nat.mod_upper_bound n 10). lia.
Qed.

Lemma decimal_from_digit (acc n : nat) (s : string) :
  decimal_from acc (String (digit n) s) = decimal_from (10 * acc + n mod 10) s.
Proof.
  cbn [decimal_from]. rewrite nat_of_digit.
  pose proof (Nat.mod_upper_bound n 10 ltac:(lia)) as Hlt.
  destruct (Nat.leb_spec 48 (48 + n mod 10)); [| lia].
  destruct (Nat.leb_spec (48 + n mod 10) 57); [| lia].
  cbn [andb]. f_equal. lia.
Qed.

Lemma decimal_pad2 (n : nat) : decimal (pad2 n) = Some (n mod 100).
Proof.
  unfold decimal, pad2. rewrite !decimal_from_digit. cbn [decimal_from]. f_equal.
  change 100 with (10 * 10). rewrite Nat.Div0.mod_mul_r. lia.
Qed.

Lemma decimal_pad4 (n : nat) : decimal (pad4 n) = Some (n mod (100 * 100)).
Proof.
  unfold decimal, pad4, pad2. rewrite !decimal_from_digit. cbn [decimal_from]. f_equal.
  pose proof (Nat.div_mod_eq n 10) as E1.
  pose proof (Nat.div_mod_eq (n / 10) 10) as E2.
  pose proof (Nat.div_mod_eq (n / 100) 10) as E3.
  pose proof (Nat.div_mod_eq (n / 1000) 10) as E4.
  pose proof (Nat.div_mod_eq n (100 * 100)) as E5.
  pose proof (Nat.mod_upper_bound n (100 * 100) ltac:(lia)) as B5.
  pose proof (Nat.mod_upper_bound (n / 1000) 10 ltac:(lia)) as B4.
  pose proof (Nat.mod_upper_bound (n / 100) 10 ltac:(lia)) as B3.
  pose proof (Nat.mod_upper_bound (n / 10) 10 ltac:(lia)) as B2.
  pose proof (Nat.mod_upper_bound n 10 ltac:(lia)) as B1.
  replace (n / 10 / 10) with (n / 100) in E2
    by (now rewrite Nat.Div0.div_div).
  replace (n / 100 / 10) with (n / 1000) in E3
    by (now rewrite Nat.Div0.div_div).
  replace (n / 1000 / 10) with (n / (100 * 100)) in E4
    by (now rewrite Nat.Div0.div_div).
  lia.
Qed.

End OutputName.

(** ** Substitution of a pattern *)

Section Substitution.

Variable m : string -> option nat.
Variable repl : string.

(** Skipping the rest of a match. *)
Lemma re_sub_from_skip (x y : string) :
  re_sub_from m repl (String.length x) (x +:+ y) = re_sub_from m repl 0 y.
Proof. induction x as [|c x IH]; simpl; [reflexivity | exact IH]. Qed.

(** Characters at which the pattern cannot start are copied. *)
Lemma re_sub_copy (p : ascii -> bool) (x y : string) :
  (forall c u, p c = true -> m (String c u) = None) ->
  all_chars p x = true ->
  re_sub_from m repl 0 (x +:+ y) = x +:+ re_sub_from m repl 0 y.
Proof.
  intros Hp. induction x as [|c x IH]; simpl; [reflexivity |].
  intros [Hc Hx]%andb_true_iff. rewrite (Hp _ _ Hc). now rewrite IH.
Qed.

(** A match is replaced. *)
Lemma re_sub_match (c : ascii) (x y : string) :
  m (String c (x +:+ y)) = Some (S (String.length x)) ->
  re_sub_from m repl 0 (String c (x +:+ y)) = repl +:+ re_sub_from m repl 0 y.
Proof. intros E. simpl. rewrite E. now rewrite re_sub_from_skip. Qed.

(** An element the pattern matches as a whole is replaced. *)
Lemma re_sub_element_replaced (body rest : string) :
  m ("<" +:+ body +:+ ">" +:+ rest) = Some (String.length body + 2) ->
  re_sub_from m repl 0 (("<" +:+ body +:+ ">") +:+ rest)
  = repl +:+ re_sub_from m repl 0 rest.
Proof.
  intros E. pose proof (append_assoc body ">" rest) as A.
  cbn [String.append] in E, A |- *. rewrite <- A in E.
  apply re_sub_match. rewrite E, append_length. simpl. f_equal. lia.
Qed.

(** An element at which the pattern does not match is copied when the
    pattern can only start at an opening bracket. *)
Lemma re_sub_element_kept (body rest : string) :
  m ("<" +:+ body +:+ ">" +:+ rest) = None ->
  (forall c u, not_char "<" c = true -> m (String c u) = None) ->
  all_chars (not_char "<") body = true ->
  re_sub_from m repl 0 (("<" +:+ body +:+ ">") +:+ rest)
  = ("<" +:+ body +:+ ">") +:+ re_sub_from m repl 0 rest.
Proof.
  intros E Hm Hbody. pose proof (append_assoc body ">" rest) as A.
  cbn [String.append] in E, A |- *. rewrite A.
  cbn [re_sub_from]. rewrite E. f_equal.
  rewrite (re_sub_copy (not_char "<")) by assumption.
  rewrite append_assoc. f_equal. cbn [re_sub_from String.append].
  now rewrite Hm.
Qed.

End Substitution.

Section Newlines.

Lemma span_newlines (n : nat) (s : string) :
  startswith NL s = false ->
  span (Ascii.eqb newline) (newlines n +:+ s) = n.
Proof.
  intros Hs. induction n as [|n IH]; simpl.
  - destruct s as [|c s]; [reflexivity |]. simpl in Hs |- *.
    rewrite andb_true_r in Hs. now rewrite Hs.
  - now rewrite IH.
Qed.

Lemma newlines_length (n : nat) : String.length (newlines n) = n.
Proof. induction n as [|n IH]; simpl; [reflexivity | now rewrite IH]. Qed.

Lemma match_newlines_other (c : ascii) (u : string) :
  not_char newline c = true -> match_newlines (String c u) = None.
Proof.
  unfold not_char, match_newlines. simpl. rewrite Ascii.eqb_sym.
  now destruct (Ascii.eqb newline c).
Qed.

(** No line separator survives the substitution of [\n+]. *)
Lemma collapse_no_newline (s : string) (k : nat) :
  all_chars (not_char newline) (re_sub_from match_newlines " " k s) = true.
Proof.
  revert k. induction s as [|c s IH]; intros k; simpl; [reflexivity |].
  destruct k as [|k]; [| apply IH].
  unfold match_newlines. simpl.
  destruct (Ascii.eqb newline c) eqn:E; simpl.
  - apply IH.
  - rewrite IH, andb_true_r. unfold not_char. now rewrite Ascii.eqb_sym, E.
Qed.

(** A whole run of line separators becomes one space. *)
Lemma collapse_run (a b : string) (n : nat) :
  all_chars (not_char newline) a = true ->
  startswith NL b = false ->
  re_sub match_newlines " " (a +:+ newlines (S n) +:+ b)
  = a +:+ " " +:+ re_sub match_newlines " " b.
Proof.
  intros Ha Hb. unfold re_sub.
  rewrite (re_sub_copy _ _ (not_char newline)); auto using match_newlines_other.
  f_equal. cbn [newlines String.append].
  change (String " " ?r) with (" " +:+ r). apply re_sub_match.
  unfold match_newlines. cbn [span]. rewrite Ascii.eqb_refl.
  now rewrite span_newlines, newlines_length.
Qed.

End Newlines.

(** ** The text of a locator *)

Lemma extract_text_ok (locator : Locator) :
  _extract_text_with_br_tags locator = Ok (cell_text locator).
Proof.
  unfold _extract_text_with_br_tags, cell_text.
  destruct (inner_html locator); simpl; [reflexivity |].
  destruct (text_content locator); reflexivity.
Qed.

(** C5: the text normaliser never raises.  Whatever the locator does, a text
    is returned; when the inner HTML cannot be read, the text is the plain
    text content with every run of line separators replaced by one space and
    then stripped: it holds no line separator, and it is what is left of the
    collapsed text between the whitespace at its two ends, with no whitespace
    character first or last.  The plain text "X\nY" gives "X Y" (as does any
    longer run between X and Y), and "  X\nY \n\n" gives "X Y" too; when the
    text content cannot be read either, the text is empty. *)
Theorem text_fallback_never_raises :
  (forall locator, exists text, _extract_text_with_br_tags locator = Ok text) /\
  (forall e t,
      let text := strip (re_sub match_newlines " " (or_empty t)) in
      _extract_text_with_br_tags
        {| inner_html := Raise e; text_content := Ok t |} = Ok text
      /\ all_chars (not_char newline) text = true
      /\ strip text = text
      /\ trimmed_of (re_sub match_newlines " " (or_empty t)) text) /\
  (forall e n,
      _extract_text_with_br_tags
        {| inner_html := Raise e;
           text_content := Ok (Some ("X" +:+ newlines (S n) +:+ "Y")) |}
      = Ok "X Y") /\
  (forall e,
      _extract_text_with_br_tags
        {| inner_html := Raise e;
           text_content :=
             Ok (Some ("  X" +:+ newlines 1 +:+ "Y " +:+ newlines 2)) |}
      = Ok "X Y") /\
  (forall e e',
      _extract_text_with_br_tags
        {| inner_html := Raise e; text_content := Raise e' |} = Ok "").
Proof.
  split; [| split; [| split; [| split]]].
  - intros locator. exists (cell_text locator). apply extract_text_ok.
  - intros e t text. split; [reflexivity | split; [| split]].
    + apply all_chars_strip, collapse_no_newline.
    + apply strip_idem.
    + apply strip_trimmed_of.
  - intros e n. rewrite extract_text_ok. unfold cell_text. cbn [inner_html text_content or_empty].
    rewrite collapse_run by reflexivity. reflexivity.
  - intros e. vm_compute. reflexivity.
  - reflexivity.
Qed.

(** C10: without an explicit output path the file name is the library name,
    two underscores, the dataset name with every space and every colon turned
    into a hyphen, two underscores, the date as YYYY-MM-DD (four, two and two
    decimal digits separated by hyphens) and ".csv"; an explicit path is used
    as given. *)
Theorem default_output_name (library_name dataset_name : string) (date_obj : date) :
  output_path library_name dataset_name date_obj None
  = library_name +:+ "__" +:+ map_chars hyphenate dataset_name +:+ "__"
    +:+ isoformat date_obj +:+ ".csv"
  /\ (exists yyyy mm dd,
        isoformat date_obj = yyyy +:+ "-" +:+ mm +:+ "-" +:+ dd
        /\ String.length yyyy = 4 /\ String.length mm = 2 /\ String.length dd = 2
        /\ decimal yyyy = Some (year date_obj mod (100 * 100))
        /\ decimal mm = Some (month date_obj mod 100)
        /\ decimal dd = Some (day date_obj mod 100))
  /\ (forall path, output_path library_name dataset_name date_obj (Some path) = path).
Proof.
  split; [| split].
  - unfold output_path. now rewrite safe_dataset_name_hyphenated.
  - exists (pad4 (year date_obj)), (pad2 (month date_obj)), (pad2 (day date_obj)).
    repeat split; auto using decimal_pad2, decimal_pad4.
  - reflexivity.
Qed.

(** ** The ledger *)

Section Ledger.

Lemma fold_restval (keys : list string) (d : gmap string (option string)) :
  (forall k v, d !! k <> Some (Some v)) ->
  forall k v,
    fold_left (fun d key => <[key := None]> d) keys d !! k <> Some (Some v).
Proof.
  revert d. induction keys as [|key keys IH]; intros d Hd k v; simpl; [apply Hd |].
  apply IH. intros k' v'. destruct (decide (key = k')) as [-> | Hne].
  - rewrite lookup_insert_eq. discriminate.
  - rewrite lookup_insert_ne by exact Hne. apply Hd.
Qed.

(** A blank record names no variable. *)
Lemma dict_row_blank (names : list string) (k v : string) :
  dict_row names [] !! k <> Some (Some v).
Proof.
  unfold dict_row. rewrite zip_with_nil_r. simpl.
  apply fold_restval. intros k' v'. rewrite lookup_empty. discriminate.
Qed.

(** The names [read_rows] adds: the stripped, non-empty [variable_name] of
    the records it is given. *)
Lemma read_rows_elem (names : list string) (rows : list (list string))
    (existing : gset string) (x : string) :
  x ∈ read_rows names existing rows <->
  x ∈ existing \/
  exists row v, In row rows
    /\ dict_row names row !! "variable_name" = Some (Some v)
    /\ v <> "" /\ x = strip v.
Proof.
  revert existing. induction rows as [|r rest IH]; intros existing.
  - simpl. split; [auto | intros [H | (row & v & [] & _)]; exact H].
  - destruct r as [|f fields].
    + simpl. rewrite IH. split.
      * intros [H | (row & v & Hin & H)]; [auto | right].
        exists row, v. split; [now right | exact H].
      * intros [H | (row & v & [Heq | Hin] & Hd & H)]; [auto | | right].
        -- subst row. now apply dict_row_blank in Hd.
        -- exists row, v. auto.
    + cbn [read_rows]. rewrite IH. clear IH.
      set (fs := f :: fields).
      destruct (dict_row names fs !! "variable_name") as [[v|]|] eqn:Hd.
      * destruct (String.eqb_spec v "") as [-> | Hv].
        -- split.
           ++ intros [H | (row & v' & Hin & H)]; [auto | right].
              exists row, v'. split; [now right | exact H].
           ++ intros [H | (row & v' & [Heq | Hin] & Hd' & Hv' & H)]; [auto | | right].
              ** subst row. congruence.
              ** exists row, v'. auto.
        -- rewrite elem_of_union, elem_of_singleton. split.
           ++ intros [[-> | H] | (row & v' & Hin & H)]; [right | auto | right].
              ** exists fs, v. split; [now left | auto].
              ** exists row, v'. split; [now right | exact H].
           ++ intros [H | (row & v' & [Heq | Hin] & Hd' & Hv' & H)]; [auto | | right].
              ** subst row. left. left. congruence.
              ** exists row, v'. auto.
      * split.
        -- intros [H | (row & v' & Hin & H)]; [auto | right].
           exists row, v'. split; [now right | exact H].
        -- intros [H | (row & v' & [Heq | Hin] & Hd' & H)]; [auto | | right].
           ++ subst row. congruence.
           ++ exists row, v'. auto.
      * split.
        -- intros [H | (row & v' & Hin & H)]; [auto | right].
           exists row, v'. split; [now right | exact H].
        -- intros [H | (row & v' & [Heq | Hin] & Hd' & H)]; [auto | | right].
           ++ subst row. congruence.
           ++ exists row, v'. auto.
Qed.

(** *** What the reader hands over *)

Lemma reader_records (rows : list (list string)) (tail : list stored)
    (seen : list (list string)) :
  reader (map Record_ rows ++ tail) seen = reader tail (seen ++ rows).
Proof.
  revert seen. induction rows as [|r rows IH]; intros seen; simpl.
  - now rewrite app_nil_r.
  - rewrite IH, <- app_assoc. reflexivity.
Qed.

(** A file of complete records is handed over whole. *)
Lemma reader_whole (rows : list (list string)) :
  reader (map Record_ rows) [] = (rows, Ok tt).
Proof.
  rewrite <- (app_nil_r (map Record_ rows)), reader_records. reflexivity.
Qed.


Lemma reader_unfinished (rows : list (list string))
    (reads : list (list string) -> list (list string)) (rest : list stored) :
  reader (map Record_ rows ++ Unfinished reads :: rest) []
  = (rows ++ reads [], Ok tt).
Proof. rewrite reader_records. reflexivity. Qed.

(** The header is handed over first, if anything is. *)
Lemma reader_header (content : list stored) (names : list string)
    (seen : list (list string)) :
  (reader content (names :: seen)).1 = []
  \/ exists rows, (reader content (names :: seen)).1 = names :: rows.
Proof.
  revert seen. induction content as [|[fields|e lost|reads] rest IH];
    intros seen; cbn [reader fst].
  - right. now exists seen.
  - apply (IH (seen ++ [fields])).
  - destruct (length (names :: seen) - lost) as [|n]; [now left | right].
    now exists (take n seen).
  - right. now exists (seen ++ reads []).
Qed.

Lemma ledger_yielded (content : list stored) :
  _read_existing_variables (Some content)
  = match yielded content with
    | [] => ∅
    | names :: rows => read_rows names ∅ rows
    end.
Proof.
  unfold _read_existing_variables, read_csv, yielded.
  destruct (reader content []) as [[|names rows] [u|e]]; reflexivity.
Qed.

Lemma read_existing_elem (content : list stored) (names : list string)
    (rows : list (list string)) (x : string) :
  yielded content = names :: rows ->
  x ∈ _read_existing_variables (Some content) <->
  exists row v, In row rows
    /\ dict_row names row !! "variable_name" = Some (Some v)
    /\ v <> "" /\ x = strip v.
Proof.
  intros Hy. rewrite ledger_yielded, Hy, read_rows_elem.
  split; [intros [Hx | Hx]; [now apply not_elem_of_empty in Hx | exact Hx]
         | intros Hx; now right].
Qed.

Lemma yielded_whole (rows : list (list string)) :
  yielded (map Record_ rows) = rows.
Proof. unfold yielded. now rewrite reader_whole. Qed.

End Ledger.

(** C9: the ledger holds exactly the names obtained from the records handed
    over after the header in which the [variable_name] field is present and
    not empty, each without its surrounding whitespace: the name is the value
    of the field between the runs of whitespace characters at its two ends,
    and has no whitespace character first or last, which determines it.  A
    record whose field is absent or empty adds nothing, and the ledger is
    empty when no record is handed over.  A file of complete records is
    handed over whole. *)
Theorem ledger_names_present_nonempty_stripped :
  (forall content,
      yielded content = [] -> _read_existing_variables (Some content) = ∅)
  /\ (forall content names rows,
        yielded content = names :: rows ->
        let ledger := _read_existing_variables (Some content) in
        (forall x,
            x ∈ ledger <->
            exists row v, In row rows
              /\ dict_row names row !! "variable_name" = Some (Some v)
              /\ v <> "" /\ trimmed_of v x)
        /\ (forall x, x ∈ ledger -> bare x))
  /\ (forall v, trimmed_of v (strip v))
  /\ (forall v x, trimmed_of v x -> x = strip v)
  /\ (forall records, yielded (map Record_ records) = records).
Proof.
  split; [| split; [| split; [| split]]].
  - intros content Hy. now rewrite ledger_yielded, Hy.
  - intros content names rows Hy ledger. subst ledger. split.
    + intros x. rewrite (read_existing_elem _ _ _ _ Hy). split.
      * intros (row & v & Hin & Hd & Hv & ->). exists row, v.
        auto using strip_trimmed_of.
      * intros (row & v & Hin & Hd & Hv & Ht). exists row, v.
        auto using trimmed_of_strip.
    + intros x Hx.
      apply (read_existing_elem _ _ _ _ Hy) in Hx as (row & v & _ & _ & _ & ->).
      apply strip_bare.
  - apply strip_trimmed_of.
  - apply trimmed_of_strip.
  - apply yielded_whole.
Qed.

Lemma ledger_names_present_nonempty_stripped_witness :
  let content :=
    [Record_ fieldnames;
     Record_ ["  SEX "; "Sex of patient"; "Char"; ""; ""; ""; ""; ""; ""];
     Record_ [""; "unnamed"; "Char"; ""; ""; ""; ""; ""; ""];
     Record_ ["AGE"]] in
  ("SEX" ∈ _read_existing_variables (Some content))
  /\ ("  SEX " ∉ _read_existing_variables (Some content)).
Proof.
  intros content.
  pose proof (proj1 (proj2 ledger_names_present_nonempty_stripped)
                content fieldnames (tl (yielded content)) eq_refl)
    as (Hin & Hbare).
  split.
  - apply Hin.
    exists ["  SEX "; "Sex of patient"; "Char"; ""; ""; ""; ""; ""; ""], "  SEX ".
    split; [now left | split; [reflexivity | split; [discriminate |]]].
    exact (strip_trimmed_of "  SEX ").
  - intros [H _]%Hbare. discriminate H.
Defined.




(** ** The variable indexer *)

Section Indexer.

Lemma collect_step_summary (variables : list VariableSummary) (row : ListingRow) :
  collect_step variables row = variables ++ option_list (row_summary row).
Proof.
  unfold collect_step, collect_row, row_summary, is_data_row.
  destruct (link_count row) as [[|links]|e]; simpl;
    try (now rewrite app_nil_r);
    destruct (header_count row) as [[|headers]|e']; simpl;
    try (now rewrite app_nil_r).
  rewrite extract_text_ok. simpl.
  destruct (listing_cells row) as [cells|e]; simpl; [| now rewrite app_nil_r].
  destruct cells as [|c0 [|c1 [|c2 cells]]]; simpl;
    rewrite ?extract_text_ok; reflexivity.
Qed.

Lemma collect_fold (rows : list ListingRow) (variables : list VariableSummary) :
  fold_left collect_step rows variables = variables ++ omap row_summary rows.
Proof.
  revert variables. induction rows as [|row rows IH]; intros variables; simpl.
  - now rewrite app_nil_r.
  - rewrite IH, collect_step_summary.
    destruct (row_summary row); simpl; [now rewrite <- app_assoc | now rewrite app_nil_r].
Qed.

Lemma collect_all_summaries (rows : list ListingRow) :
  _collect_all_variables (Ok rows) = Ok (omap row_summary rows).
Proof. unfold _collect_all_variables. simpl. now rewrite collect_fold. Qed.

(** Every collected name is free of surrounding whitespace. *)
Lemma cell_text_stripped (locator : Locator) :
  strip (cell_text locator) = cell_text locator.
Proof.
  unfold cell_text. destruct (inner_html locator).
  - unfold br_text. apply strip_idem.
  - destruct (text_content locator); [apply strip_idem | reflexivity].
Qed.

Lemma row_summary_name_stripped (row : ListingRow) (v : VariableSummary) :
  row_summary row = Some v -> strip (name v) = name v.
Proof.
  unfold row_summary. destruct (is_data_row row); [| discriminate].
  destruct (listing_cells row); [| discriminate].
  intros [= <-]. apply cell_text_stripped.
Qed.

End Indexer.

(** C6: once the rows of the listing table are known, the indexer returns,
    without raising, the summaries of the data rows in the order of the rows.
    A data row has at least one link in a cell and no header cell; a row that
    is not one, or whose reading raises, contributes nothing, so that adding
    one such row anywhere in a listing leaves the result as it was; a data
    row with fewer than two or three cells gets an empty description or
    type. *)
Theorem indexer_keeps_data_rows_in_order :
  (forall rows, _collect_all_variables (Ok rows) = Ok (omap row_summary rows))
  /\ (forall before bad after,
        is_data_row bad = false \/ (exists e, link_count bad = Raise e)
        \/ (exists e, header_count bad = Raise e)
        \/ (exists e, listing_cells bad = Raise e) ->
        _collect_all_variables (Ok (before ++ bad :: after))
        = _collect_all_variables (Ok (before ++ after)))
  /\ (forall row links cell,
        link_count row = Ok (S links) -> header_count row = Ok 0 ->
        listing_cells row = Ok [cell] ->
        row_summary row = Some {| name := cell_text (name_link row);
                                  description := ""; type := "" |}).
Proof.
  split; [exact collect_all_summaries | split].
  - intros before bad after Hbad. rewrite !collect_all_summaries. f_equal.
    rewrite !omap_app. f_equal. simpl.
    assert (row_summary bad = None) as ->; [| reflexivity].
    unfold row_summary, is_data_row.
    destruct Hbad as [H | [[e H] | [[e H] | [e H]]]].
    + unfold is_data_row in H. now rewrite H.
    + now rewrite H.
    + rewrite H. now destruct (link_count bad) as [[|?]|?].
    + rewrite H. now destruct (link_count bad) as [[|?]|?], (header_count bad) as [[|?]|?].
  - intros row links cell Hl Hh Hc. unfold row_summary, is_data_row.
    now rewrite Hl, Hh, Hc.
Qed.

Lemma indexer_keeps_data_rows_in_order_witness :
  let good n := {| link_count := Ok 1; header_count := Ok 0;
                   name_link := text_cell n;
                   listing_cells := Ok [text_cell n; text_cell "d"; text_cell "t"] |} in
  let bad := {| link_count := Raise "Timeout"; header_count := Ok 0;
                name_link := no_element; listing_cells := Ok [] |} in
  _collect_all_variables (Ok ([good "AGE"] ++ bad :: [good "SEX"]))
  = _collect_all_variables (Ok ([good "AGE"] ++ [good "SEX"])).
Proof.
  intros good bad.
  apply (proj1 (proj2 indexer_keeps_data_rows_in_order) [good "AGE"] bad [good "SEX"]).
  right. left. exists "Timeout". reflexivity.
Defined.

(** ** The detail view *)

Section DetailView.

(** The [if]/[elif] chain tries the keywords in the order of the table. *)
Lemma label_key_first_keyword (label_text : string) :
  label_key label_text = first_keyword label_text.
Proof.
  unfold label_key, first_keyword, keywords. cbn [List.find fst].
  repeat (match goal with
          | |- context [contains ?k label_text] => destruct (contains k label_text)
          end; try reflexivity).
Qed.

Lemma detail_row_step_field (data : gmap string string) (row : DetailRow) :
  detail_row_step data row
  = match row_field row with
    | Some (key, value) => <[key := value]> data
    | None => data
    end.
Proof.
  unfold detail_row_step, row_field.
  destruct (detail_cells row) as [cells|e]; simpl; [| reflexivity].
  destruct cells as [|label_cell [|value_cell cells]]; simpl; try reflexivity.
  destruct (text_content label_cell) as [t|e]; simpl; [| reflexivity].
  rewrite extract_text_ok. simpl. rewrite label_key_first_keyword.
  now destruct (first_keyword (strip (or_empty t))).
Qed.

(** After the loop a field holds the value of the last row contributing to
    it, and its former value when there is none. *)
Lemma detail_fold_last (rows : list DetailRow) (data : gmap string string)
    (key : string) :
  fold_left detail_row_step rows data !! key
  = match last (values_for key rows) with
    | Some v => Some v
    | None => data !! key
    end.
Proof.
  revert data. induction rows as [|row rows IH]; intros data; [reflexivity |].
  cbn [fold_left]. rewrite IH, detail_row_step_field. unfold values_for.
  cbn [omap list_omap]. fold (values_for key rows).
  destruct (row_field row) as [[k v]|].
  - destruct (decide (k = key)) as [-> | Hne].
    + cbn. rewrite last_cons, lookup_insert_eq.
      now destruct (last (values_for key rows)).
    + cbn. rewrite lookup_insert_ne by exact Hne. reflexivity.
  - reflexivity.
Qed.

End DetailView.

(** C1, as the code has it: the label of a row with two cells or more is
    matched against the keywords Label, Type Length, Available In, Format,
    Value, Links in that order and the first keyword it contains decides the
    field; each such row assigns its value to the field, so a field ends with
    the value of the last row matching it; the rows ("Label","Foo"),
    ("Type Length","10"), ("Format","YYYY") give exactly label "Foo",
    type_length "10" and format "YYYY". *)
Theorem detail_fields_last_match_wins :
  (forall label_text, label_key label_text = first_keyword label_text)
  /\ (forall rows, exists data,
        _extract_detailed_view (Ok rows) = Ok data
        /\ forall key, data !! key = last (values_for key rows))
  /\ _extract_detailed_view
       (Ok [labelled_row "Label" "Foo"; labelled_row "Type Length" "10";
            labelled_row "Format" "YYYY"])
     = Ok (<["label" := "Foo"]> (<["type_length" := "10"]>
            (<["format" := "YYYY"]> ∅))).
Proof.
  split; [exact label_key_first_keyword | split].
  - intros rows. eexists. split; [reflexivity |].
    intros key. rewrite detail_fold_last, lookup_empty.
    now destruct (last (values_for key rows)).
  - vm_compute. reflexivity.
Qed.

(** C1 as stated fails: of two rows labelled "Label" the second one, not
    the first, ends up in the field. *)
Lemma detail_first_match_overwritten :
  let rows := [labelled_row "Label" "Foo"; labelled_row "Label" "Bar"] in
  exists data,
    _extract_detailed_view (Ok rows) = Ok data
    /\ head (values_for "label" rows) = Some "Foo"
    /\ data !! "label" = Some "Bar"
    /\ data !! "label" <> head (values_for "label" rows).
Proof.
  eexists. split; [reflexivity |]. split; [reflexivity |].
  split; [compute_done |]. vm_compute. discriminate.
Qed.

(** ** The run *)

Section Appending.

Lemma ends_inside_record_snoc (content : list stored) (fields : list string) :
  ends_inside_record (content ++ [Record_ fields]) = false.
Proof. unfold ends_inside_record. now rewrite last_snoc. Qed.

Lemma ends_inside_record_whole (rows : list (list string)) :
  ends_inside_record (map Record_ rows) = false.
Proof.
  unfold ends_inside_record.
  induction rows as [|r [|r' rows] IH]; [reflexivity | reflexivity |].
  cbn [map] in *. rewrite last_cons_cons. exact IH.
Qed.

(** After a file that ends with a record, a row is a record of its own. *)
Lemma append_row_boundary (content : list stored) (fields : list string) :
  ends_inside_record content = false ->
  append_row content fields = content ++ [Record_ fields].
Proof.
  induction content as [|x rest IH]; [reflexivity |].
  destruct rest as [|y rest'].
  - destruct x; [reflexivity | reflexivity | discriminate].
  - intros H.
    assert (append_row (x :: y :: rest') fields
            = x :: append_row (y :: rest') fields) as -> by now destruct x.
    rewrite IH; [reflexivity |].
    unfold ends_inside_record in H |- *. now rewrite last_cons_cons in H.
Qed.

Lemma append_rows_boundary (content : list stored) (rows : list (list string)) :
  ends_inside_record content = false ->
  fold_left append_row rows content = content ++ map Record_ rows.
Proof.
  revert content. induction rows as [|r rows IH]; intros content H; simpl.
  - now rewrite app_nil_r.
  - rewrite append_row_boundary by exact H.
    rewrite IH by apply ends_inside_record_snoc.
    now rewrite <- app_assoc.
Qed.

(** After a file that ends inside a record, a row continues that record. *)
Lemma append_row_unfinished (before : list stored)
    (reads : list (list string) -> list (list string)) (fields : list string) :
  append_row (before ++ [Unfinished reads]) fields
  = before ++ [Unfinished (fun rows => reads (fields :: rows))].
Proof.
  induction before as [|x rest IH]; [reflexivity |].
  change ((x :: rest) ++ [Unfinished reads])
    with (x :: (rest ++ [Unfinished reads])).
  destruct (rest ++ [Unfinished reads]) as [|y l] eqn:E;
    [now destruct rest |].
  assert (append_row (x :: y :: l) fields = x :: append_row (y :: l) fields)
    as -> by now destruct x.
  now rewrite IH.
Qed.

Lemma append_rows_unfinished (before : list stored)
    (reads : list (list string) -> list (list string))
    (rows : list (list string)) :
  fold_left append_row rows (before ++ [Unfinished reads])
  = before ++ [Unfinished (fun more => reads (rows ++ more))].
Proof.
  revert reads. induction rows as [|r rows IH]; intros reads; simpl.
  - reflexivity.
  - rewrite append_row_unfinished, IH. reflexivity.
Qed.

Lemma close_flush_write (csvfile : AppendFile) (fields : list string) :
  close (flush (write csvfile fields)) = append_row (close csvfile) fields.
Proof. unfold close, flush, write. simpl. now rewrite fold_left_app. Qed.

End Appending.

Section Visit.

Lemma click_visible_ok (buttons : list Button) :
  click_visible buttons = Ok tt <-> forallb visibility_known buttons = true.
Proof.
  induction buttons as [|button rest IH]; simpl; [split; reflexivity |].
  unfold visibility_known at 1.
  destruct (is_visible button) as [v|e]; simpl; [| split; discriminate].
  assert ((if v then try_except (click button) (fun _ => Ok tt) else Ok tt)
          = Ok tt) as ->.
  { destruct v; [| reflexivity]. now destruct (click button) as [[]|e]. }
  exact IH.
Qed.

(** The controls are expanded without raising when every selector can be
    counted and every button queried. *)
Lemma handle_more_buttons_answered (selectors : list (outcome (list Button))) :
  forallb queries_answered selectors = true ->
  _handle_more_buttons selectors = Ok tt.
Proof.
  induction selectors as [|more_buttons rest IH]; simpl; [reflexivity |].
  destruct more_buttons as [buttons|e]; simpl; [| discriminate].
  intros [Hb Hrest]%andb_true_iff.
  apply click_visible_ok in Hb. rewrite Hb. simpl. auto.
Qed.

(** The four places where the visit of a variable can raise. *)
Lemma scrape_variable_details_raises (visit : DetailVisit) (e : string) :
  _scrape_variable_details visit = Raise e
  <-> navigation visit = Raise e
      \/ (navigation visit = Ok tt /\ first_view visit = Raise e)
      \/ (navigation visit = Ok tt /\ (exists rows, first_view visit = Ok rows)
          /\ _handle_more_buttons (more_controls visit) = Raise e)
      \/ (navigation visit = Ok tt /\ (exists rows, first_view visit = Ok rows)
          /\ _handle_more_buttons (more_controls visit) = Ok tt
          /\ expanded_view visit = Raise e).
Proof.
  unfold _scrape_variable_details.
  destruct (navigation visit) as [[]|e0]; simpl.
  2: { split; [intros [= ->]; now left |].
       intros [H | [[H _] | [[H _] | [H _]]]]; congruence. }
  destruct (first_view visit) as [rows1|e1]; simpl.
  2: { split; [intros [= ->]; right; left; auto |].
       intros [H | [[_ H] | [(_ & [? H] & _) | (_ & [? H] & _)]]]; congruence. }
  destruct (_handle_more_buttons (more_controls visit)) as [[]|e2]; simpl.
  2: { split; [intros [= ->]; right; right; left; eauto |].
       intros [H | [[_ H] | [(_ & _ & H) | (_ & _ & H & _)]]]; congruence. }
  destruct (expanded_view visit) as [rows2|e3]; simpl.
  - split; [discriminate |].
    intros [H | [[_ H] | [(_ & _ & H) | (_ & _ & _ & H)]]]; congruence.
  - split; [intros [= ->]; right; right; right; eauto |].
    intros [H | [[_ H] | [(_ & _ & H) | (_ & _ & _ & H)]]]; congruence.
Qed.

End Visit.

Section Run.

Variable disk : Disk.
Variable site : Site.

Lemma output_rows_of (variables : list VariableSummary) :
  output_rows site variables = map Record_ (rows_of site variables).
Proof. unfold output_rows, rows_of. now rewrite map_map. Qed.

Lemma completed_all (variables : list VariableSummary) :
  (forall v, In v variables ->
     exists d, _scrape_variable_details (visit site (name v)) = Ok d) ->
  completed site variables = variables.
Proof.
  induction variables as [|v rest IH]; intros H; simpl; [reflexivity |].
  destruct (H v (or_introl eq_refl)) as [d ->].
  rewrite IH; [reflexivity |]. intros w Hw. apply H. now right.
Qed.

(** The variables reached are those before the first one whose visit
    raises. *)
Lemma completed_stop (done rest : list VariableSummary) (v : VariableSummary)
    (e : string) :
  (forall w, In w done ->
     exists d, _scrape_variable_details (visit site (name w)) = Ok d) ->
  _scrape_variable_details (visit site (name v)) = Raise e ->
  completed site (done ++ v :: rest) = done.
Proof.
  intros Hdone Hv. induction done as [|w done IH]; simpl.
  - now rewrite Hv.
  - destruct (Hdone w (or_introl eq_refl)) as [d ->].
    rewrite IH; [reflexivity |]. intros u Hu. apply Hdone. now right.
Qed.

(** The file after the loop when every row can be written: the rows of the
    variables reached, after what was there. *)
Lemma process_variables_close (variables : list VariableSummary)
    (csvfile : AppendFile) (n : nat) :
  (forall k, writing disk k = Ok tt) ->
  close (process_variables disk site csvfile n variables).1
  = fold_left append_row (rows_of site (completed site variables))
      (close csvfile).
Proof.
  intros Hw. revert csvfile n.
  induction variables as [|v rest IH]; intros csvfile n; simpl; [reflexivity |].
  destruct (_scrape_variable_details (visit site (name v))) as [d|e] eqn:E;
    simpl; [| reflexivity].
  rewrite Hw, IH, close_flush_write. unfold detail_of at 1. now rewrite E.
Qed.

(** The loop then ends normally exactly when every variable was reached,
    and otherwise with the exception of the first visit that raises. *)
Lemma process_variables_result (variables : list VariableSummary)
    (csvfile : AppendFile) (n : nat) :
  (forall k, writing disk k = Ok tt) ->
  (process_variables disk site csvfile n variables).2 = Ok tt
  <-> completed site variables = variables.
Proof.
  intros Hw. revert csvfile n.
  induction variables as [|v rest IH]; intros csvfile n; simpl.
  - split; reflexivity.
  - destruct (_scrape_variable_details (visit site (name v))) as [d|e]; simpl.
    + rewrite Hw, IH. split; [now intros -> | now intros [= ->]].
    + split; discriminate.
Qed.

Lemma process_variables_raise (done rest : list VariableSummary)
    (v : VariableSummary) (e : string) (csvfile : AppendFile) (n : nat) :
  (forall k, writing disk k = Ok tt) ->
  (forall w, In w done ->
     exists d, _scrape_variable_details (visit site (name w)) = Ok d) ->
  _scrape_variable_details (visit site (name v)) = Raise e ->
  (process_variables disk site csvfile n (done ++ v :: rest)).2 = Raise e.
Proof.
  intros Hw Hdone Hv. revert csvfile n.
  induction done as [|w done IH]; intros csvfile n; simpl.
  - now rewrite Hv.
  - destruct (Hdone w (or_introl eq_refl)) as [d ->]. rewrite Hw.
    apply IH. intros u Hu. apply Hdone. now right.
Qed.

(** A loop that ends normally has reached every variable and written every
    row. *)
Lemma process_variables_ok (variables : list VariableSummary)
    (csvfile : AppendFile) (n : nat) :
  (process_variables disk site csvfile n variables).2 = Ok tt ->
  completed site variables = variables
  /\ close (process_variables disk site csvfile n variables).1
     = fold_left append_row (rows_of site variables) (close csvfile).
Proof.
  revert csvfile n.
  induction variables as [|v rest IH]; intros csvfile n; simpl; [auto |].
  destruct (_scrape_variable_details (visit site (name v))) as [d|e] eqn:E;
    simpl; [| discriminate].
  destruct (writing disk n) as [[]|e]; simpl; [| discriminate].
  intros H. destruct (IH _ _ H) as [Hdone Hclose].
  rewrite Hdone, Hclose, close_flush_write.
  unfold detail_of at 1. now rewrite E.
Qed.

Lemma existing_variables_if (output_csv : option (list stored)) :
  (if bool_decide (is_Some output_csv)
   then _read_existing_variables output_csv else ∅)
  = _read_existing_variables output_csv.
Proof. destruct output_csv; [reflexivity |]. now case_bool_decide. Qed.

Lemma close_start (output_csv : option (list stored)) :
  close (if bool_decide (is_Some output_csv)
         then open_append output_csv
         else writeheader (open_append output_csv))
  = file_start output_csv.
Proof. now destruct output_csv. Qed.

(** The run on a path where every call on the file succeeds. *)
Lemma scrape_ices_data_run (output_csv : option (list stored))
    (variables : list VariableSummary) :
  writable disk ->
  reach_dataset site = Ok tt ->
  _collect_all_variables (variables_table site) = Ok variables ->
  let todo := pending variables (_read_existing_variables output_csv) in
  (scrape_ices_data_on disk site output_csv).1
  = Some (fold_left append_row (rows_of site (completed site todo))
            (file_start output_csv))
  /\ ((scrape_ices_data_on disk site output_csv).2 = Ok tt
      <-> completed site todo = todo).
Proof.
  intros (Hopen & Hwrite & Hclose) Hreach Hcollect todo.
  unfold scrape_ices_data_on.
  rewrite Hreach, Hcollect, Hopen, Hclose, existing_variables_if. fold todo.
  set (csvfile := if bool_decide (is_Some output_csv)
                  then open_append output_csv
                  else writeheader (open_append output_csv)).
  pose proof (process_variables_close todo csvfile 0 Hwrite) as Hfile.
  pose proof (process_variables_result todo csvfile 0 Hwrite) as Hresult.
  destruct (process_variables disk site csvfile 0 todo) as [csvfile' result].
  simpl in *. subst csvfile. rewrite Hfile, close_start.
  split; [reflexivity | exact Hresult].
Qed.

(** The exception of the first visit that raises ends the run. *)
Lemma scrape_ices_data_raise (output_csv : option (list stored))
    (variables done rest : list VariableSummary) (v : VariableSummary)
    (e : string) :
  writable disk ->
  reach_dataset site = Ok tt ->
  _collect_all_variables (variables_table site) = Ok variables ->
  pending variables (_read_existing_variables output_csv) = done ++ v :: rest ->
  (forall w, In w done ->
     exists d, _scrape_variable_details (visit site (name w)) = Ok d) ->
  _scrape_variable_details (visit site (name v)) = Raise e ->
  scrape_ices_data_on disk site output_csv
  = (Some (fold_left append_row (rows_of site done) (file_start output_csv)),
     Raise e).
Proof.
  intros Hdisk Hreach Hcollect Htodo Hdone Hv.
  destruct (scrape_ices_data_run output_csv variables Hdisk Hreach Hcollect)
    as [Hfile _].
  rewrite Htodo, (completed_stop done rest v e Hdone Hv) in Hfile.
  destruct Hdisk as (Hopen & Hwrite & Hclose).
  unfold scrape_ices_data_on in Hfile |- *.
  rewrite Hreach, Hcollect, Hopen, Hclose, existing_variables_if in Hfile |- *.
  rewrite Htodo in Hfile |- *.
  pose proof (process_variables_raise done rest v e
                (if bool_decide (is_Some output_csv)
                 then open_append output_csv
                 else writeheader (open_append output_csv)) 0
                Hwrite Hdone Hv) as Hresult.
  destruct (process_variables disk site _ 0 (done ++ v :: rest))
    as [csvfile' result].
  simpl in *. now rewrite Hresult, Hfile.
Qed.

(** A run that ends normally has reached every pending variable, and the
    file it leaves holds their rows after what was there. *)
Lemma scrape_ices_data_ok (output_csv : option (list stored))
    (variables : list VariableSummary) (content : list stored) :
  _collect_all_variables (variables_table site) = Ok variables ->
  scrape_ices_data_on disk site output_csv = (Some content, Ok tt) ->
  let todo := pending variables (_read_existing_variables output_csv) in
  reach_dataset site = Ok tt
  /\ completed site todo = todo
  /\ content = fold_left append_row (rows_of site todo) (file_start output_csv).
Proof.
  intros Hcollect Hrun todo. unfold scrape_ices_data_on in Hrun.
  destruct (reach_dataset site) as [[]|e]; [| discriminate].
  rewrite Hcollect, existing_variables_if in Hrun. fold todo in Hrun.
  destruct (opening disk) as [u|e]; [| discriminate].
  pose proof (process_variables_ok todo
                (if bool_decide (is_Some output_csv)
                 then open_append output_csv
                 else writeheader (open_append output_csv)) 0) as Hok.
  destruct (process_variables disk site _ 0 todo) as [csvfile' result].
  destruct (closing disk) as [u'|e]; [| discriminate].
  injection Hrun as Hfile Hresult. simpl in Hok.
  destruct (Hok Hresult) as [Hdone Hclose].
  split; [reflexivity | split; [exact Hdone |]].
  now rewrite <- Hfile, Hclose, close_start.
Qed.

End Run.

Lemma writable_sound : writable sound.
Proof. repeat split. Qed.

(** The view of a detail page is read without raising once its rows are
    counted, whatever the rows do. *)
Lemma extract_detailed_view_rows (rows : list DetailRow) :
  _extract_detailed_view (Ok rows) = Ok (fold_left detail_row_step rows ∅).
Proof. reflexivity. Qed.

(** C2, as the code has it.  Let the run reach the listing, let every call
    on the output file succeed, and let the file be absent or end with a
    complete record.  When the visit of every pending variable returns, the
    run ends normally and the file holds, for each of them, a record of its
    summary fields and its detail fields, empty where the detail has none (an
    all-empty detail gives the summary and six empty fields).  Failures
    inside the rows of the detail view are absorbed: a visit whose navigation
    succeeds, whose two views can be counted and whose expansion controls can
    be counted and queried returns, whatever its rows do, and a view whose
    rows all fail gives an empty detail.  A visit raises exactly when the
    navigation, the count of the rows of either view or the expansion of the
    controls raises; that exception is not caught: the run ends with it, and
    the file holds the rows of the variables before that one and nothing for
    it or for the ones after it. *)
Theorem pending_rows_written_when_scraping_returns
    (disk : Disk) (site : Site) (output_csv : option (list stored))
    (variables : list VariableSummary) :
  writable disk ->
  ends_inside_record (file_start output_csv) = false ->
  reach_dataset site = Ok tt ->
  _collect_all_variables (variables_table site) = Ok variables ->
  let todo := pending variables (_read_existing_variables output_csv) in
  ((forall v, In v todo ->
      exists d, _scrape_variable_details (visit site (name v)) = Ok d) ->
   exists content,
     scrape_ices_data_on disk site output_csv = (Some content, Ok tt)
     /\ forall v, In v todo ->
          exists d, _scrape_variable_details (visit site (name v)) = Ok d
                    /\ In (Record_ (row_data v d)) content)
  /\ (forall done v rest e,
        todo = done ++ v :: rest ->
        (forall w, In w done ->
           exists d, _scrape_variable_details (visit site (name w)) = Ok d) ->
        _scrape_variable_details (visit site (name v)) = Raise e ->
        scrape_ices_data_on disk site output_csv
        = (Some (file_start output_csv ++ output_rows site done), Raise e))
  /\ (forall v, row_data v ∅
                = [name v; description v; type v; ""; ""; ""; ""; ""; ""])
  /\ (forall visit rows rows',
        navigation visit = Ok tt ->
        first_view visit = Ok rows ->
        forallb queries_answered (more_controls visit) = true ->
        expanded_view visit = Ok rows' ->
        _scrape_variable_details visit
        = Ok (fold_left detail_row_step rows' ∅))
  /\ (forall data row,
        (exists e, detail_cells row = Raise e)
        \/ (exists label_cell value_cell cells e,
              detail_cells row = Ok (label_cell :: value_cell :: cells)
              /\ text_content label_cell = Raise e) ->
        detail_row_step data row = data)
  /\ (forall e e',
        _scrape_variable_details
          (shows [{| detail_cells := Raise e |};
                  {| detail_cells := Ok [no_element; text_cell e'] |}])
        = Ok ∅)
  /\ (forall visit e,
        _scrape_variable_details visit = Raise e
        <-> navigation visit = Raise e
            \/ (navigation visit = Ok tt /\ first_view visit = Raise e)
            \/ (navigation visit = Ok tt
                /\ (exists rows, first_view visit = Ok rows)
                /\ _handle_more_buttons (more_controls visit) = Raise e)
            \/ (navigation visit = Ok tt
                /\ (exists rows, first_view visit = Ok rows)
                /\ _handle_more_buttons (more_controls visit) = Ok tt
                /\ expanded_view visit = Raise e)).
Proof.
  intros Hdisk Hend Hreach Hcollect todo.
  split; [| split; [| split; [reflexivity |
    split; [| split; [| split; [reflexivity |]]]]]].
  - intros Hall.
    destruct (scrape_ices_data_run disk site output_csv variables
                Hdisk Hreach Hcollect) as [Hfile Hresult].
    fold todo in Hfile, Hresult.
    pose proof (completed_all site todo Hall) as Hdone.
    rewrite Hdone in Hfile. apply Hresult in Hdone.
    rewrite append_rows_boundary in Hfile by exact Hend.
    destruct (scrape_ices_data_on disk site output_csv) as [file result].
    simpl in *. subst file result. eexists. split; [reflexivity |].
    intros v Hv. destruct (Hall v Hv) as [d Hd]. exists d. split; [exact Hd |].
    apply in_or_app. right. apply in_map, in_map_iff.
    exists v. split; [| exact Hv]. unfold detail_of. now rewrite Hd.
  - intros done v rest e Htodo Hdone Hv.
    rewrite (scrape_ices_data_raise disk site output_csv variables done rest v e
               Hdisk Hreach Hcollect Htodo Hdone Hv).
    rewrite append_rows_boundary by exact Hend.
    now rewrite output_rows_of.
  - intros visit rows rows' Hnav Hfirst Hmore Hexp.
    unfold _scrape_variable_details.
    rewrite Hnav, Hfirst, Hexp, (handle_more_buttons_answered _ Hmore).
    reflexivity.
  - intros data row [[e H] | (label_cell & value_cell & cells & e & H & Hl)];
      unfold detail_row_step; rewrite H; simpl; [reflexivity |].
    now rewrite Hl.
  - intros visit e. apply scrape_variable_details_raises.
Qed.

Lemma pending_rows_written_when_scraping_returns_witness :
  let site := {| reach_dataset := Ok tt;
                 variables_table := Ok [listed "AGE" "Age in years" "Num"];
                 visit := fun _ => shows [{| detail_cells := Raise "detached" |}] |} in
  exists content,
    scrape_ices_data_on sound site None = (Some content, Ok tt)
    /\ forall v, In v (pending [{| name := "AGE"; description := "Age in years";
                                   type := "Num" |}]
                         (_read_existing_variables None)) ->
         exists d, _scrape_variable_details (visit site (name v)) = Ok d
                   /\ In (Record_ (row_data v d)) content.
Proof.
  intros site.
  refine (proj1 (pending_rows_written_when_scraping_returns sound site None
    [{| name := "AGE"; description := "Age in years"; type := "Num" |}]
    writable_sound eq_refl eq_refl eq_refl) _).
  intros v _. eexists. reflexivity.
Defined.

(** C2 as stated fails: the variable is pending, the click on its link
    times out, and the run ends with that exception and a file that holds the
    header only. *)
Lemma pending_variable_dropped_when_navigation_raises :
  let site := {| reach_dataset := Ok tt;
                 variables_table := Ok [listed "AGE" "Age in years" "Num"];
                 visit := fun _ => unreachable |} in
  let v := {| name := "AGE"; description := "Age in years"; type := "Num" |} in
  _collect_all_variables (variables_table site) = Ok [v]
  /\ pending [v] (_read_existing_variables None) = [v]
  /\ scrape_ices_data_on sound site None
     = (Some [Record_ fieldnames], Raise "Timeout 30000ms exceeded").
Proof. intros site v. repeat split; vm_compute; reflexivity. Qed.

(** C8, as the code has it: the writer only appends.  A run that does not
    reach the listing or cannot open the file leaves the path as it was.  Let
    the run reach the listing and every call on the file succeed.  Then the
    file is what it held, or the header of nine columns when there was no
    file (a file that exists gets no header), with the rows of nine fields of
    the variables reached appended in their order.  After a file that ends
    with a complete record the rows are records of their own and what the
    file held is unchanged; after a file that ends inside a record, the
    complete records are unchanged and the rows continue that last record.
    In the loop each row is on disk, with nothing left in the buffer, when
    the next variable is processed. *)
Theorem writer_appends_and_flushes :
  (forall disk site output_csv e,
      reach_dataset site = Raise e
      \/ _collect_all_variables (variables_table site) = Raise e
      \/ opening disk = Raise e ->
      (scrape_ices_data_on disk site output_csv).1 = output_csv)
  /\ (forall disk site output_csv variables,
        writable disk ->
        reach_dataset site = Ok tt ->
        _collect_all_variables (variables_table site) = Ok variables ->
        (scrape_ices_data_on disk site output_csv).1
        = Some (fold_left append_row
                  (rows_of site
                     (completed site
                        (pending variables
                           (_read_existing_variables output_csv))))
                  (match output_csv with
                   | None => [Record_ fieldnames]
                   | Some content => content
                   end)))
  /\ (forall content rows,
        ends_inside_record content = false ->
        fold_left append_row rows content = content ++ map Record_ rows)
  /\ (forall before reads rows,
        fold_left append_row rows (before ++ [Unfinished reads])
        = before ++ [Unfinished (fun more => reads (rows ++ more))])
  /\ length fieldnames = 9
  /\ (forall site variables,
        Forall (fun row => length row = 9) (rows_of site variables))
  /\ (forall disk site csvfile n v rest d,
        _scrape_variable_details (visit site (name v)) = Ok d ->
        writing disk n = Ok tt ->
        process_variables disk site csvfile n (v :: rest)
        = process_variables disk site
            {| on_disk := fold_left append_row
                            (buffered csvfile ++ [row_data v d])
                            (on_disk csvfile);
               buffered := [] |} (S n) rest).
Proof.
  split; [| split; [| split; [| split; [| split; [reflexivity | split]]]]].
  - intros disk site output_csv e H. unfold scrape_ices_data_on.
    destruct (reach_dataset site) as [[]|e1]; [| reflexivity].
    destruct (_collect_all_variables (variables_table site)) as [vs|e2];
      [| reflexivity].
    destruct H as [H | [H | H]]; [discriminate | discriminate |].
    now rewrite H.
  - intros disk site output_csv variables Hdisk Hreach Hcollect.
    now destruct (scrape_ices_data_run disk site output_csv variables
                    Hdisk Hreach Hcollect) as [-> _].
  - exact append_rows_boundary.
  - exact append_rows_unfinished.
  - intros site variables. unfold rows_of. apply List.Forall_forall.
    now intros row (v & <- & _)%in_map_iff.
  - intros disk site csvfile n v rest d Hd Hw. simpl. rewrite Hd, Hw.
    reflexivity.
Qed.

Lemma writer_appends_and_flushes_witness :
  let site := {| reach_dataset := Ok tt;
                 variables_table := Ok [listed "AGE" "Age in years" "Num";
                                        listed "SEX" "Sex" "Char"];
                 visit := fun _ => shows [labelled_row "Label" "Foo"] |} in
  let old := [Record_ fieldnames;
              Record_ ["AGE"; "Age in years"; "Num"; "Foo"; ""; ""; ""; ""; ""]] in
  (scrape_ices_data_on sound site (Some old)).1
  = Some (old ++ [Record_ ["SEX"; "Sex"; "Char"; "Foo"; ""; ""; ""; ""; ""]]).
Proof.
  intros site old.
  refine (eq_trans (proj1 (proj2 writer_appends_and_flushes) sound site (Some old)
    [{| name := "AGE"; description := "Age in years"; type := "Num" |};
     {| name := "SEX"; description := "Sex"; type := "Char" |}]
    writable_sound eq_refl eq_refl) _).
  vm_compute. reflexivity.
Defined.

(** C8 as stated fails: the last line of the file, the row of AGE, has no
    terminator.  The run appends the row of SEX and ends normally, but the
    row continues that line: the reader is handed one record of seventeen
    fields, which is neither the record of AGE the file held nor a record of
    SEX. *)
Lemma appended_row_continues_unterminated_line :
  let site := {| reach_dataset := Ok tt;
                 variables_table := Ok [listed "AGE" "Age in years" "Num";
                                        listed "SEX" "Sex" "Char"];
                 visit := fun _ => shows [] |} in
  let age := ["AGE"; "Age in years"; "Num"; ""; ""; ""; ""; ""; ""] in
  let sex := ["SEX"; "Sex"; "Char"; ""; ""; ""; ""; ""; ""] in
  let old := [Record_ fieldnames; Unfinished (glued age)] in
  yielded old = [fieldnames; age]
  /\ pending [{| name := "AGE"; description := "Age in years"; type := "Num" |};
              {| name := "SEX"; description := "Sex"; type := "Char" |}]
       (_read_existing_variables (Some old))
     = [{| name := "SEX"; description := "Sex"; type := "Char" |}]
  /\ exists content,
       scrape_ices_data_on sound site (Some old) = (Some content, Ok tt)
       /\ yielded content
          = [fieldnames;
             ["AGE"; "Age in years"; "Num"; ""; ""; ""; ""; ""; "SEX";
              "Sex"; "Char"; ""; ""; ""; ""; ""; ""]]
       /\ ~ In age (yielded content) /\ ~ In sex (yielded content).
Proof.
  intros site age sex old.
  split; [reflexivity | split; [vm_compute; reflexivity |]].
  eexists. split; [vm_compute; reflexivity |].
  split; [vm_compute; reflexivity |].
  split; vm_compute; intros [H | [H | []]]; discriminate H.
Qed.

(** ** Resuming *)

Section Resume.

(** A row written by the run is read back under its variable name. *)
Lemma dict_row_row_data (v : VariableSummary) (d : gmap string string) :
  dict_row fieldnames (row_data v d) !! "variable_name" = Some (Some (name v)).
Proof. reflexivity. Qed.

Lemma pending_nil (variables : list VariableSummary) (ledger : gset string) :
  (forall v, In v variables -> name v ∈ ledger) ->
  pending variables ledger = [].
Proof.
  unfold pending. induction variables as [|v rest IH]; intros H; simpl; [reflexivity |].
  unfold not_scraped at 1.
  rewrite bool_decide_eq_false_2 by (intros Hn; apply Hn, H; now left).
  apply IH. intros w Hw. apply H. now right.
Qed.

Lemma pending_In (variables : list VariableSummary) (ledger : gset string)
    (v : VariableSummary) :
  In v variables -> name v ∉ ledger -> In v (pending variables ledger).
Proof.
  intros Hv Hn. unfold pending. apply filter_In. split; [exact Hv |].
  unfold not_scraped. now apply bool_decide_eq_true_2.
Qed.

Lemma collected_names_stripped (table : outcome (list ListingRow))
    (variables : list VariableSummary) (v : VariableSummary) :
  _collect_all_variables table = Ok variables ->
  In v variables -> strip (name v) = name v.
Proof.
  destruct table as [rows|e]; [| discriminate].
  rewrite collect_all_summaries. intros [= <-] Hv.
  apply list_elem_of_In, list_elem_of_omap in Hv as (row & _ & Hrow).
  eapply row_summary_name_stripped, Hrow.
Qed.

(** The ledger of a file of complete records under the header of the
    program. *)
Lemma ledger_whole (rows : list (list string)) (x : string) :
  x ∈ _read_existing_variables (Some (map Record_ (fieldnames :: rows))) <->
  exists row v, In row rows
    /\ dict_row fieldnames row !! "variable_name" = Some (Some v)
    /\ v <> "" /\ x = strip v.
Proof. apply read_existing_elem, yielded_whole. Qed.

End Resume.

(** C7, as the code has it: let a run end normally on a file that did not
    exist or that was made of the header of this program and of complete
    records, and let no listed variable have an empty name.  Then the file it
    leaves has every listed variable in its ledger, so nothing is pending on
    it; a second run on the same site and that file leaves the file as it is,
    and ends normally when every call on the file succeeds. *)
Theorem resume_appends_nothing
    (disk disk' : Disk) (site : Site) (output_csv : option (list stored))
    (variables : list VariableSummary) (content : list stored) :
  (output_csv = None
   \/ exists rows, output_csv = Some (map Record_ (fieldnames :: rows))) ->
  _collect_all_variables (variables_table site) = Ok variables ->
  Forall (fun v => name v <> "") variables ->
  scrape_ices_data_on disk site output_csv = (Some content, Ok tt) ->
  pending variables (_read_existing_variables (Some content)) = []
  /\ (writable disk' ->
      scrape_ices_data_on disk' site (Some content) = (Some content, Ok tt))
  /\ (forall e, opening disk' = Raise e ->
      scrape_ices_data_on disk' site (Some content) = (Some content, Raise e)).
Proof.
  intros Hstart Hcollect Hnames Hrun.
  destruct (scrape_ices_data_ok disk site output_csv variables content
              Hcollect Hrun) as (Hreach & Hdone & Hcontent).
  assert (exists rows,
             file_start output_csv = map Record_ (fieldnames :: rows)
             /\ forall x, x ∈ _read_existing_variables output_csv ->
                  exists row v, In row rows
                    /\ dict_row fieldnames row !! "variable_name" = Some (Some v)
                    /\ v <> "" /\ x = strip v) as (rows & Hfs & Hold).
  { destruct Hstart as [-> | [rows ->]].
    - exists []. split; [reflexivity |]. intros x Hx.
      now apply not_elem_of_empty in Hx.
    - exists rows. split; [reflexivity |]. intros x Hx.
      now apply ledger_whole. }
  rewrite Hfs, append_rows_boundary in Hcontent
    by apply ends_inside_record_whole.
  rewrite <- map_app in Hcontent. cbn [app] in Hcontent.
  assert (forall v, In v variables ->
            name v ∈ _read_existing_variables (Some content)) as Hall.
  { intros v Hv. rewrite Hcontent. apply ledger_whole.
    destruct (decide (name v ∈ _read_existing_variables output_csv)) as [Hin | Hnot].
    - destruct (Hold _ Hin) as (row & w & Hrow & H).
      exists row, w. split; [| exact H]. apply in_or_app. now left.
    - exists (row_data v (detail_of site v)), (name v). split; [| split; [| split]].
      + apply in_or_app. right. unfold rows_of. apply in_map_iff.
        exists v. split; [reflexivity | now apply pending_In].
      + apply dict_row_row_data.
      + rewrite List.Forall_forall in Hnames. now apply Hnames.
      + symmetry. eapply collected_names_stripped; eauto. }
  apply pending_nil in Hall. split; [exact Hall | split].
  - intros Hdisk'.
    destruct (scrape_ices_data_run disk' site (Some content) variables
                Hdisk' Hreach Hcollect) as [Hfile2 Hresult2].
    rewrite Hall in Hfile2, Hresult2. simpl in Hfile2, Hresult2.
    destruct (scrape_ices_data_on disk' site (Some content)) as [file result].
    simpl in Hfile2, Hresult2. subst file. f_equal. now apply Hresult2.
  - intros e Hopen. unfold scrape_ices_data_on.
    now rewrite Hreach, Hcollect, Hopen.
Qed.

Lemma resume_appends_nothing_witness :
  let site := {| reach_dataset := Ok tt;
                 variables_table := Ok [listed "AGE" "Age in years" "Num";
                                        listed "SEX" "Sex" "Char"];
                 visit := fun _ => shows [labelled_row "Label" "Foo"] |} in
  let content :=
    [Record_ fieldnames;
     Record_ ["AGE"; "Age in years"; "Num"; "Foo"; ""; ""; ""; ""; ""];
     Record_ ["SEX"; "Sex"; "Char"; "Foo"; ""; ""; ""; ""; ""]] in
  scrape_ices_data_on sound site None = (Some content, Ok tt)
  /\ scrape_ices_data_on sound site (Some content) = (Some content, Ok tt).
Proof.
  intros site content.
  assert (scrape_ices_data_on sound site None = (Some content, Ok tt)) as Hrun
    by (vm_compute; reflexivity).
  split; [exact Hrun |].
  refine (proj1 (proj2 (resume_appends_nothing sound sound site None
    [{| name := "AGE"; description := "Age in years"; type := "Num" |};
     {| name := "SEX"; description := "Sex"; type := "Char" |}]
    content (or_introl eq_refl) eq_refl _ Hrun)) writable_sound).
  repeat constructor; simpl; discriminate.
Defined.

(** C7 as stated fails: a listed variable whose link has no text (it wraps
    an image) gets the empty name; the first run writes its row, the ledger
    of the second run leaves it out, and the second run appends the row
    again. *)
Lemma resume_repeats_unnamed_variable :
  let site := {| reach_dataset := Ok tt;
                 variables_table :=
                   Ok [{| link_count := Ok 1; header_count := Ok 0;
                          name_link :=
                            {| inner_html := Ok "<img src=icon.png>";
                               text_content := Ok (Some "") |};
                          listing_cells := Ok [text_cell ""; text_cell "Icon";
                                               text_cell "Char"] |}];
                 visit := fun _ => shows [] |} in
  let row := Record_ [""; "Icon"; "Char"; ""; ""; ""; ""; ""; ""] in
  scrape_ices_data_on sound site None
  = (Some [Record_ fieldnames; row], Ok tt)
  /\ scrape_ices_data_on sound site (Some [Record_ fieldnames; row])
     = (Some [Record_ fieldnames; row; row], Ok tt).
Proof. intros site row. split; vm_compute; reflexivity. Qed.

(** Why the file has to end with a complete record.  The last line of the
    file, the row of AGE, has no terminator; the row the run appends for SEX
    continues it, so the reader is handed one record of seventeen fields
    named AGE.  The run ends normally, and on the file it leaves SEX is
    pending again. *)
Remark resume_repeats_after_unterminated_file :
  let listing :=
    [{| name := "AGE"; description := "Age in years"; type := "Num" |};
     {| name := "SEX"; description := "Sex"; type := "Char" |}] in
  let site := {| reach_dataset := Ok tt;
                 variables_table := Ok [listed "AGE" "Age in years" "Num";
                                        listed "SEX" "Sex" "Char"];
                 visit := fun _ => shows [] |} in
  let old :=
    [Record_ fieldnames;
     Unfinished (glued ["AGE"; "Age in years"; "Num"; ""; ""; ""; ""; ""; ""])] in
  exists content,
    scrape_ices_data_on sound site (Some old) = (Some content, Ok tt)
    /\ yielded content
       = [fieldnames;
          ["AGE"; "Age in years"; "Num"; ""; ""; ""; ""; ""; "SEX";
           "Sex"; "Char"; ""; ""; ""; ""; ""; ""]]
    /\ pending listing (_read_existing_variables (Some content))
       = [{| name := "SEX"; description := "Sex"; type := "Char" |}].
Proof.
  intros listing site old. eexists. split; [vm_compute; reflexivity |].
  split; vm_compute; reflexivity.
Qed.

(** ** The text normaliser *)

Section Lines.

Lemma strip_trimmed (s : string) : trimmed (strip s).
Proof.
  split; [apply strip_starts_clean |]. unfold strip. apply rstrip_idem.
Qed.

Lemma trimmed_strip (s : string) : trimmed s -> strip s = s.
Proof. intros [Hl Hr]. unfold strip. now rewrite lstrip_clean. Qed.



Lemma split_line (sep : ascii) (l : string) :
  all_chars (not_char sep) l = true -> split sep l = [l].
Proof.
  induction l as [|c l IH]; simpl; [reflexivity |].
  unfold not_char at 1. intros [Hc Hl]%andb_true_iff.
  apply negb_true_iff in Hc. now rewrite Hc, IH.
Qed.

Lemma split_line_sep (sep : ascii) (l rest : string) :
  all_chars (not_char sep) l = true ->
  split sep (l +:+ String sep rest) = l :: split sep rest.
Proof.
  induction l as [|c l IH]; simpl.
  - now rewrite Ascii.eqb_refl.
  - unfold not_char at 1. intros [Hc Hl]%andb_true_iff.
    apply negb_true_iff in Hc. now rewrite Hc, IH.
Qed.

(** Splitting undoes joining when the lines hold no line separator. *)
Lemma split_join (ls : list string) :
  ls <> [] ->
  Forall (fun l => all_chars (not_char newline) l = true) ls ->
  split newline (join NL ls) = ls.
Proof.
  induction ls as [|l ls IH]; [contradiction |]. intros _ H.
  inversion H as [|? ? Hl Hls]; subst.
  destruct ls as [|l' ls]; simpl.
  - now apply split_line.
  - unfold NL. simpl. rewrite split_line_sep by exact Hl.
    f_equal. now apply IH.
Qed.

Lemma join_one_more (sep l : string) (ls : list string) :
  ls <> [] -> join sep (l :: ls) = l +:+ sep +:+ join sep ls.
Proof. now destruct ls. Qed.

Lemma join_not_empty (sep l : string) (ls : list string) :
  l <> "" -> join sep (l :: ls) <> "".
Proof.
  intros Hl. destruct ls; simpl; [exact Hl |].
  destruct l; [contradiction | discriminate].
Qed.

Lemma rstrip_cons_kept (c : ascii) (s : string) :
  rstrip s = s -> s <> "" -> rstrip (String c s) = String c s.
Proof. intros Hr Hne. simpl. rewrite Hr. now destruct s. Qed.

(** Joining trimmed, non-empty lines gives a trimmed text. *)
Lemma join_trimmed (ls : list string) :
  Forall (fun l => trimmed l /\ l <> "") ls -> trimmed (join NL ls).
Proof.
  intros H. split.
  - destruct H as [|l ls [[Hl _] Hne] _]; [exact I |].
    destruct l as [|c l]; [contradiction |]. now destruct ls.
  - induction H as [|l ls [[_ Hr] Hne] Hls IH]; [reflexivity |].
    destruct ls as [|l' ls]; [exact Hr |].
    rewrite join_one_more by discriminate.
    assert (rstrip (NL +:+ join NL (l' :: ls)) = NL +:+ join NL (l' :: ls)) as E.
    { inversion Hls as [|? ? [_ Hne'] _]; subst.
      apply rstrip_cons_kept; [exact IH | now apply join_not_empty]. }
    rewrite rstrip_append; rewrite E; [reflexivity | discriminate].
Qed.

Lemma filter_lines (ls : list string) :
  Forall (fun l => trimmed l /\ l <> "")
    (filter (fun line => line <> "") (map strip ls)).
Proof.
  induction ls as [|l ls IH]; simpl; [constructor |].
  rewrite filter_cons. destruct (decide (strip l <> "")) as [Hne | _]; [| exact IH].
  constructor; [| exact IH]. split; [apply strip_trimmed | exact Hne].
Qed.

End Lines.

(** Evaluate the comparison of two given characters. *)
Ltac char_eval :=
  repeat match goal with
         | |- context [Ascii.eqb (Ascii ?a0 ?a1 ?a2 ?a3 ?a4 ?a5 ?a6 ?a7)
                                 (Ascii ?b0 ?b1 ?b2 ?b3 ?b4 ?b5 ?b6 ?b7)] =>
             let x := constr:(Ascii a0 a1 a2 a3 a4 a5 a6 a7) in
             let y := constr:(Ascii b0 b1 b2 b3 b4 b5 b6 b7) in
             let v := eval vm_compute in (Ascii.eqb x y) in
             change (Ascii.eqb x y) with v
         end.

Section Patterns.

Lemma span_stop (p : ascii -> bool) (w : string) (c : ascii) (y : string) :
  p c = false -> span p (w +:+ String c y) = span p w.
Proof.
  intros Hc. induction w as [|a w IH]; simpl; [now rewrite Hc |].
  destruct (p a); [now rewrite IH | reflexivity].
Qed.

Lemma span_all (p : ascii -> bool) (x : string) (c : ascii) (y : string) :
  all_chars p x = true -> p c = false ->
  span p (x +:+ String c y) = String.length x.
Proof.
  intros Hx Hc. induction x as [|a x IH]; simpl; [now rewrite Hc |].
  simpl in Hx. apply andb_true_iff in Hx as [Ha Hx]. now rewrite Ha, IH.
Qed.

Lemma drop_append (x y : string) : drop (String.length x) (x +:+ y) = y.
Proof. induction x as [|a x IH]; simpl; [now destruct y | exact IH]. Qed.

Lemma lstrip_stop (w : string) (c : ascii) (y : string) :
  is_space c = false -> lstrip (w +:+ String c y) = lstrip w +:+ String c y.
Proof.
  intros Hc. induction w as [|a w IH]; simpl; [now rewrite Hc |].
  destruct (is_space a); [exact IH | reflexivity].
Qed.

Lemma span_lstrip_length (w : string) :
  String.length w = span is_space w + String.length (lstrip w).
Proof.
  induction w as [|a w IH]; simpl; [reflexivity |].
  destruct (is_space a); simpl; [now rewrite IH | reflexivity].
Qed.

Lemma no_angle_gt (c : ascii) : no_angle c = true -> Ascii.eqb c ">" = false.
Proof. unfold no_angle, not_char. intros [_ H]%andb_true_iff. now apply negb_true_iff. Qed.


Lemma all_chars_weaken (p q : ascii -> bool) (s : string) :
  (forall c, p c = true -> q c = true) ->
  all_chars p s = true -> all_chars q s = true.
Proof.
  intros Hpq. induction s as [|c s IH]; simpl; [trivial |].
  intros [Hc Hs]%andb_true_iff. now rewrite (Hpq _ Hc), IH.
Qed.

Lemma match_br_other (c : ascii) (u : string) :
  not_char "<" c = true -> match_br (String c u) = None.
Proof.
  unfold not_char. intros H%negb_true_iff. unfold match_br.
  destruct u as [|b [|r rest]]; try reflexivity. now rewrite H.
Qed.

Lemma match_tag_other (c : ascii) (u : string) :
  not_char "<" c = true -> match_tag (String c u) = None.
Proof. unfold not_char. intros H%negb_true_iff. unfold match_tag. now rewrite H. Qed.

(** At an element the marker pattern matches exactly when the body is that
    of a marker, and then it matches the whole element. *)
Lemma match_br_element (body rest : string) :
  all_chars no_angle body = true ->
  match_br ("<" +:+ body +:+ ">" +:+ rest)
  = if is_break body then Some (String.length body + 2) else None.
Proof.
  intros Hbody. destruct body as [|b [|r w]].
  - simpl. destruct rest as [|r0 rest]; [reflexivity |]. char_eval. reflexivity.
  - simpl. char_eval. now rewrite ?orb_false_r, ?andb_false_r.
  - cbn [String.append match_br is_break]. char_eval. cbn [andb].
    destruct (Ascii.eqb b "b" || Ascii.eqb b "B"); [| reflexivity].
    destruct (Ascii.eqb r "r" || Ascii.eqb r "R"); [| reflexivity].
    cbn [andb]. simpl in Hbody.
    apply andb_true_iff in Hbody as [_ Hbody].
    apply andb_true_iff in Hbody as [_ Hw].
    rewrite span_stop, lstrip_stop by reflexivity.
    pose proof (span_lstrip_length w) as Hlen.
    pose proof (all_chars_lstrip _ _ Hw) as Hl.
    destruct (lstrip w) as [|c w2].
    + simpl. char_eval. simpl in Hlen. f_equal. simpl. lia.
    + simpl in Hl. apply andb_true_iff in Hl as [Hc Hw2].
      cbn [String.append]. rewrite (no_angle_gt _ Hc).
      destruct (Ascii.eqb_spec c "/") as [-> | Hne].
      * destruct w2 as [|d w3].
        -- simpl. char_eval. simpl in Hlen. f_equal. simpl. lia.
        -- simpl in Hw2. apply andb_true_iff in Hw2 as [Hd _].
           simpl. rewrite (Ascii.eqb_sym ">" d), (no_angle_gt _ Hd).
           char_eval. reflexivity.
      * simpl. apply Ascii.eqb_neq in Hne. now rewrite Hne.
Qed.

(** At an element the tag pattern matches the whole element. *)
Lemma match_tag_element (body rest : string) :
  body <> "" -> all_chars no_angle body = true ->
  match_tag ("<" +:+ body +:+ ">" +:+ rest) = Some (String.length body + 2).
Proof.
  intros Hne Hbody. cbn [String.append match_tag]. char_eval.
  assert (all_chars (not_char ">") body = true) as Hgt.
  { apply (all_chars_weaken no_angle); [| exact Hbody].
    unfold no_angle. now intros c [_ H]%andb_true_iff. }
  rewrite span_all by (exact Hgt || reflexivity).
  pose proof (drop_append body (String ">" rest)) as Hdrop.
  destruct (String.length body) as [|n] eqn:Hlen.
  - destruct body; [contradiction | discriminate].
  - rewrite Hdrop. char_eval. f_equal. lia.
Qed.



End Patterns.

Section Fragments.

Lemma line_texts_not_nil (items : list item) : line_texts items <> [].
Proof.
  induction items as [|[t|body] rest IH]; simpl; [discriminate | |].
  - now destruct (line_texts rest).
  - now destruct (is_break body).
Qed.

Lemma join_prepend (sep t l : string) (ls : list string) :
  join sep ((t +:+ l) :: ls) = t +:+ join sep (l :: ls).
Proof. destruct ls; simpl; [reflexivity | now rewrite append_assoc]. Qed.

(** The markers, and only they, are replaced by the placeholder. *)
Lemma markers_replaced (items : list item) :
  forallb well_formed items = true ->
  re_sub match_br BR_TAG (render items) = marked items.
Proof.
  unfold re_sub. induction items as [|[t|body] rest IH];
    cbn [render render_item marked forallb well_formed]; [reflexivity | |];
    intros [Hi Hrest]%andb_true_iff.
  - rewrite (re_sub_copy _ _ (not_char "<")); auto using match_br_other.
    now rewrite IH.
  - apply andb_true_iff in Hi as [_ Hbody].
    pose proof (match_br_element body (render rest) Hbody) as Hm.
    destruct (is_break body).
    + rewrite re_sub_element_replaced by exact Hm. now rewrite IH.
    + rewrite re_sub_element_kept; auto using match_br_other.
      * now rewrite IH.
      * apply (all_chars_weaken no_angle); [| exact Hbody].
        unfold no_angle. now intros c [H _]%andb_true_iff.
Qed.

(** Removing the tags leaves the texts of the lines, separated by the
    placeholder. *)
Lemma tags_removed (items : list item) :
  forallb well_formed items = true ->
  re_sub match_tag "" (marked items) = join BR_TAG (line_texts items).
Proof.
  unfold re_sub. induction items as [|[t|body] rest IH];
    cbn [marked line_texts forallb well_formed]; [reflexivity | |];
    intros [Hi Hrest]%andb_true_iff.
  - rewrite (re_sub_copy _ _ (not_char "<")); auto using match_tag_other.
    rewrite IH by exact Hrest.
    pose proof (line_texts_not_nil rest) as Hne.
    destruct (line_texts rest) as [|l ls]; [contradiction |].
    now rewrite join_prepend.
  - apply andb_true_iff in Hi as [Hne Hbody].
    apply negb_true_iff, String.eqb_neq in Hne.
    destruct (is_break body).
    + rewrite (re_sub_copy _ _ (not_char "<")); auto using match_tag_other.
      rewrite IH by exact Hrest.
      rewrite join_one_more by apply line_texts_not_nil. reflexivity.
    + rewrite re_sub_element_replaced
        by (now apply match_tag_element).
      now rewrite IH.
Qed.

(** A run of line separators does not reach across another character. *)
Lemma collapse_app_stop (x : string) (k : nat) (c : ascii) (y : string) :
  Ascii.eqb newline c = false ->
  k <= span (Ascii.eqb newline) x ->
  re_sub_from match_newlines " " k (x +:+ String c y)
  = re_sub_from match_newlines " " k x
    +:+ re_sub_from match_newlines " " 0 (String c y).
Proof.
  intros Hc. revert k. induction x as [|a x IH]; intros k Hk.
  - simpl in Hk. assert (k = 0) as -> by lia. reflexivity.
  - cbn [span] in Hk. cbn [String.append re_sub_from].
    destruct k as [|k].
    + unfold match_newlines. cbn [span].
      destruct (Ascii.eqb newline a) eqn:Ea.
      * rewrite span_stop by exact Hc. cbn [String.append]. f_equal.
        apply IH. lia.
      * cbn [String.append]. f_equal. apply IH. lia.
    + destruct (Ascii.eqb newline a); [| lia]. apply IH. lia.
Qed.

Lemma collapse_join (ls : list string) :
  ls <> [] ->
  re_sub match_newlines " " (join BR_TAG ls)
  = join BR_TAG (map (re_sub match_newlines " ") ls).
Proof.
  induction ls as [|l ls IH]; [contradiction |]. intros _.
  destruct ls as [|l' ls]; [reflexivity |].
  rewrite (join_one_more _ l) by discriminate.
  cbn [map].
  rewrite (join_one_more _ (re_sub match_newlines " " l)) by discriminate.
  unfold re_sub at 1. unfold BR_TAG at 1. cbn [String.append].
  rewrite collapse_app_stop by (reflexivity || lia).
  f_equal.
  change (re_sub_from match_newlines " " 0 (BR_TAG +:+ join BR_TAG (l' :: ls))
          = BR_TAG +:+ join BR_TAG (map (re_sub match_newlines " ") (l' :: ls))).
  rewrite (re_sub_copy _ _ (not_char newline));
    auto using match_newlines_other.
  f_equal. apply IH. discriminate.
Qed.

End Fragments.

Section Placeholder.

Lemma replace_from_skip (old new x y : string) :
  replace_from old new (String.length x) (x +:+ y) = replace_from old new 0 y.
Proof. induction x as [|c x IH]; simpl; [reflexivity | exact IH]. Qed.

Lemma contains_cons (needle : string) (c : ascii) (s : string) :
  contains needle (String c s) = false ->
  startswith needle (String c s) = false /\ contains needle s = false.
Proof. cbn [contains]. now intros [? ?]%orb_false_iff. Qed.

(** Inside a text without a double underscore the placeholder does not
    start, whatever follows the text. *)
Lemma placeholder_not_in_line (c : ascii) (l rest : string) :
  contains "__" (String c l) = false ->
  startswith BR_TAG (String c l +:+ rest) = false
  \/ (l = "" /\ Ascii.eqb "_" c = true).
Proof.
  intros [H _]%contains_cons. unfold BR_TAG.
  cbn [startswith String.append] in H |- *.
  destruct (Ascii.eqb "_" c); [| now left].
  destruct l as [|d l]; [now right | left].
  cbn [startswith String.append andb] in H |- *.
  rewrite andb_true_r in H. now rewrite H.
Qed.

Lemma replace_placeholder (rest : string) :
  replace_from BR_TAG NL 0 (BR_TAG +:+ rest)
  = NL +:+ replace_from BR_TAG NL 0 rest.
Proof.
  unfold BR_TAG.
  cbn [String.append replace_from startswith String.length Nat.sub].
  char_eval. reflexivity.
Qed.

Lemma underscore_then_placeholder (rest : string) :
  startswith BR_TAG (String "_" (BR_TAG +:+ rest)) = false.
Proof.
  unfold BR_TAG. cbn [String.append startswith]. char_eval. reflexivity.
Qed.

Lemma replace_line (l rest : string) :
  contains "__" l = false ->
  replace_from BR_TAG NL 0 (l +:+ BR_TAG +:+ rest)
  = l +:+ NL +:+ replace_from BR_TAG NL 0 rest.
Proof.
  induction l as [|c l IH]; intros Hl.
  - apply replace_placeholder.
  - pose proof (contains_cons _ _ _ Hl) as [_ Hl'].
    cbn [String.append replace_from].
    destruct (placeholder_not_in_line c l (BR_TAG +:+ rest) Hl) as [H | [-> H]].
    + cbn [String.append] in H. rewrite H. f_equal. now apply IH.
    + apply Ascii.eqb_eq in H as <-.
      cbn [String.append]. rewrite underscore_then_placeholder.
      now rewrite replace_placeholder.
Qed.

Lemma replace_none (l : string) :
  contains "__" l = false -> replace_from BR_TAG NL 0 l = l.
Proof.
  induction l as [|c l IH]; intros Hl; [reflexivity |].
  pose proof (contains_cons _ _ _ Hl) as [_ Hl'].
  cbn [replace_from].
  destruct (placeholder_not_in_line c l "" Hl) as [H | [-> H]].
  - rewrite append_nil_r in H. rewrite H. f_equal. now apply IH.
  - apply Ascii.eqb_eq in H as <-. reflexivity.
Qed.

(** When no line holds a double underscore, the placeholders found are the
    ones that stand for the markers. *)
Lemma replace_join (ls : list string) :
  Forall (fun l => contains "__" l = false) ls ->
  replace BR_TAG NL (join BR_TAG ls) = join NL ls.
Proof.
  unfold replace. induction 1 as [|l ls Hl Hls IH]; [reflexivity |].
  destruct ls as [|l' ls]; [now apply replace_none |].
  rewrite !(join_one_more _ l) by discriminate.
  rewrite replace_line by exact Hl. now rewrite IH.
Qed.

Lemma match_newlines_cons (c : ascii) (s : string) :
  match_newlines (String c s)
  = if Ascii.eqb newline c then Some (S (span (Ascii.eqb newline) s)) else None.
Proof. unfold match_newlines. cbn [span]. now destruct (Ascii.eqb newline c). Qed.

Lemma startswith_dunder_cons (c : ascii) (s : string) :
  startswith "__" (String c s) = Ascii.eqb "_" c && startswith "_" s.
Proof. reflexivity. Qed.

Lemma collapse_head (s : string) :
  startswith "_" (re_sub_from match_newlines " " 0 s) = true ->
  startswith "_" s = true.
Proof.
  destruct s as [|c s]; [trivial |]. cbn [re_sub_from].
  rewrite match_newlines_cons.
  destruct (Ascii.eqb newline c); [discriminate | trivial].
Qed.

(** Collapsing the line separators brings no double underscore. *)
Lemma collapse_no_dunder (s : string) (k : nat) :
  contains "__" s = false ->
  contains "__" (re_sub_from match_newlines " " k s) = false.
Proof.
  revert k. induction s as [|c s IH]; intros k Hs; [reflexivity |].
  pose proof (contains_cons _ _ _ Hs) as [Hc Hs'].
  cbn [re_sub_from]. destruct k as [|k]; [| now apply IH].
  rewrite match_newlines_cons.
  destruct (Ascii.eqb newline c).
  - cbn [String.append contains startswith]. char_eval. cbn [andb orb].
    now apply IH.
  - cbn [contains]. rewrite (IH 0 Hs'), orb_false_r.
    rewrite startswith_dunder_cons in Hc |- *.
    destruct (Ascii.eqb "_" c); [| reflexivity]. cbn [andb] in Hc |- *.
    destruct (startswith "_" (re_sub_from match_newlines " " 0 s)) eqn:E;
      [| reflexivity].
    apply collapse_head in E. congruence.
Qed.

End Placeholder.

Section Normaliser.

Lemma result_lines_clean (html_content : string) :
  Forall (fun l => trimmed l /\ l <> "") (result_lines html_content).
Proof. apply filter_lines. Qed.


(** The final [strip] finds nothing to remove. *)
Lemma br_text_join (html_content : string) :
  br_text html_content = join NL (result_lines html_content).
Proof.
  unfold br_text. fold (result_lines html_content).
  apply trimmed_strip, join_trimmed, result_lines_clean.
Qed.

Lemma br_text_fragment (items : list item) :
  forallb well_formed items = true ->
  forallb (fun l => negb (contains "__" l)) (line_texts items) = true ->
  br_text (render items) = fragment_text items.
Proof.
  intros Hwf Hph. rewrite br_text_join. unfold result_lines, fragment_text.
  rewrite markers_replaced, tags_removed by exact Hwf.
  rewrite collapse_join by apply line_texts_not_nil.
  rewrite replace_join.
  - rewrite split_join.
    + now rewrite map_map.
    + pose proof (line_texts_not_nil items). now destruct (line_texts items).
    + apply List.Forall_forall. intros l (l0 & <- & _)%in_map_iff.
      apply collapse_no_newline.
  - apply List.Forall_forall. intros l (l0 & <- & Hin)%in_map_iff.
    apply collapse_no_dunder.
    rewrite forallb_forall in Hph. now apply negb_true_iff, Hph.
Qed.

End Normaliser.

(** ** No tag is left *)

Section TagFree.











End TagFree.

Section TagFreeSteps.







End TagFreeSteps.

Section TagFreeResult.









End TagFreeResult.

Section Runs.




End Runs.




(** The placeholder the code takes to be absent from the text: where the
    text holds it, it is turned into a line separator like a marker. *)
Remark placeholder_in_text_breaks_line :
  br_text "a__BR_TAG__b" = "a" +:+ NL +:+ "b".
Proof. vm_compute. reflexivity. Qed.

(** * Further properties *)

(** ** The ledger and the columns of the file *)

Section Columns.

Lemma fold_some_other (kvs : list (string * string))
    (d : gmap string (option string)) (k : string) :
  (forall kv, kv ∈ kvs -> kv.1 <> k) ->
  fold_left (fun d kv => <[kv.1 := Some kv.2]> d) kvs d !! k = d !! k.
Proof.
  revert d. induction kvs as [|kv kvs IH]; intros d H; simpl; [reflexivity |].
  rewrite IH by (intros kv' Hin; apply H; now right).
  apply lookup_insert_ne, H. now left.
Qed.

Lemma fold_none_other (keys : list string)
    (d : gmap string (option string)) (k : string) :
  k ∉ keys ->
  fold_left (fun d key => <[key := None]> d) keys d !! k = d !! k.
Proof.
  revert d. induction keys as [|key keys IH]; intros d H; simpl; [reflexivity |].
  rewrite IH by (intros Hin; apply H; now right).
  apply lookup_insert_ne. intros ->. apply H. now left.
Qed.

Lemma elem_of_skipn (n : nat) (l : list string) (k : string) :
  k ∈ List.skipn n l -> k ∈ l.
Proof.
  revert l. induction n as [|n IH]; intros l; [trivial |].
  destruct l as [|a l]; simpl; [trivial |]. intros H. right. now apply IH.
Qed.

(** A column the header does not name is absent from every record. *)
Lemma dict_row_missing (names row : list string) (k : string) :
  k ∉ names -> dict_row names row !! k = None.
Proof.
  intros Hk. unfold dict_row.
  rewrite fold_none_other by (intros H%elem_of_skipn; contradiction).
  rewrite fold_some_other; [apply lookup_empty |].
  intros [a b] Hin%elem_of_zip_l. simpl. now intros ->.
Qed.

(** The first column, when no other column has its name. *)
Lemma dict_row_head (k : string) (names : list string) (f : string)
    (rest : list string) :
  k ∉ names -> dict_row (k :: names) (f :: rest) !! k = Some (Some f).
Proof.
  intros Hk. unfold dict_row.
  change (zip (k :: names) (f :: rest)) with ((k, f) :: zip names rest).
  change (List.skipn (length (f :: rest)) (k :: names))
    with (List.skipn (length rest) names).
  cbn [fold_left fst snd].
  rewrite fold_none_other by (intros H%elem_of_skipn; contradiction).
  rewrite fold_some_other; [apply lookup_insert_eq |].
  intros [a b] Hin%elem_of_zip_l. simpl. now intros ->.
Qed.

(** Under the header of the program the name of a record is its first
    field, however many fields the record has. *)
Lemma dict_row_first (f : string) (rest : list string) :
  dict_row fieldnames (f :: rest) !! "variable_name" = Some (Some f).
Proof. apply dict_row_head. compute_done. Qed.

(** Rows appended after a file add to what the reader hands over, and take
    nothing from it. *)
Lemma reader_app_records (content : list stored) (rows : list (list string))
    (seen : list (list string)) :
  exists more,
    (reader (content ++ map Record_ rows) seen).1
    = (reader content seen).1 ++ more.
Proof.
  revert seen. induction content as [|[fields|e lost|reads] rest IH];
    intros seen; cbn [app reader fst].
  - exists rows. rewrite <- (app_nil_r (map Record_ rows)), reader_records.
    reflexivity.
  - apply IH.
  - exists []. now rewrite app_nil_r.
  - exists []. now rewrite app_nil_r.
Qed.

End Columns.

(** X1: a file whose header has no [variable_name] column gives an empty
    ledger, whatever its records hold. *)
Theorem ledger_empty_without_name_column
    (names : list string) (records : list stored) :
  "variable_name" ∉ names ->
  _read_existing_variables (Some (Record_ names :: records)) = ∅.
Proof.
  intros Hk. rewrite ledger_yielded. unfold yielded. cbn [reader app].
  destruct (reader_header records names []) as [-> | [rows ->]]; [reflexivity |].
  apply set_eq. intros x. rewrite read_rows_elem. split.
  - intros [H | (row & v & _ & Hd & _)]; [exact H |].
    now rewrite dict_row_missing in Hd.
  - intros H. now apply not_elem_of_empty in H.
Qed.

Lemma ledger_empty_without_name_column_witness :
  _read_existing_variables
    (Some [Record_ ["name"; "label"]; Record_ ["AGE"; "Age in years"]]) = ∅.
Proof.
  apply (ledger_empty_without_name_column ["name"; "label"]
           [Record_ ["AGE"; "Age in years"]]).
  compute_done.
Defined.

(** X2: when the reader hands over the header of the program first, the
    ledger holds exactly the first fields, without their surrounding
    whitespace, of the records handed over after it whose first field is not
    empty; the other fields, and their number, play no part. *)
Theorem ledger_of_first_fields
    (content : list stored) (rows : list (list string)) (x : string) :
  yielded content = fieldnames :: rows ->
  x ∈ _read_existing_variables (Some content) <->
  exists f rest, In (f :: rest) rows /\ f <> "" /\ trimmed_of f x.
Proof.
  intros Hy. rewrite (read_existing_elem _ _ _ _ Hy). split.
  - intros (row & v & Hin & Hd & Hv & ->).
    destruct row as [|f rest]; [now apply dict_row_blank in Hd |].
    rewrite dict_row_first in Hd. injection Hd as <-.
    exists f, rest. auto using strip_trimmed_of.
  - intros (f & rest & Hin & Hf & Ht). exists (f :: rest), f.
    split; [exact Hin | split; [apply dict_row_first |]].
    auto using trimmed_of_strip.
Qed.

Lemma ledger_of_first_fields_witness :
  "SEX" ∈ _read_existing_variables
            (Some [Record_ fieldnames; Record_ ["AGE"]; Record_ [" SEX"; "Sex"];
                   Undecodable "invalid start byte" 0]).
Proof.
  apply (ledger_of_first_fields
           [Record_ fieldnames; Record_ ["AGE"]; Record_ [" SEX"; "Sex"];
            Undecodable "invalid start byte" 0]
           [["AGE"]; [" SEX"; "Sex"]] "SEX" eq_refl).
  exists " SEX", ["Sex"].
  split; [right; now left | split; [discriminate |]].
  exact (strip_trimmed_of " SEX").
Defined.

(** X3: the rows a run appends to a file that ends with a complete record
    take no name out of its ledger. *)
Theorem ledger_grows_with_appended_rows
    (content : list stored) (rows : list (list string)) :
  ends_inside_record content = false ->
  _read_existing_variables (Some content)
  ⊆ _read_existing_variables (Some (fold_left append_row rows content)).
Proof.
  intros Hend x. rewrite append_rows_boundary by exact Hend.
  rewrite !ledger_yielded. unfold yielded.
  destruct (reader_app_records content rows []) as [more ->].
  destruct (reader content []).1 as [|names seen];
    [intros H; now apply not_elem_of_empty in H |].
  cbn [app]. rewrite !read_rows_elem.
  intros [H | (row & v & Hin & H)]; [now left | right].
  exists row, v. split; [| exact H]. apply in_or_app. now left.
Qed.

Lemma ledger_grows_with_appended_rows_witness :
  _read_existing_variables (Some [Record_ fieldnames; Record_ ["AGE"]])
  ⊆ _read_existing_variables
      (Some (fold_left append_row [["SEX"; "Sex"]]
               [Record_ fieldnames; Record_ ["AGE"]])).
Proof.
  exact (ledger_grows_with_appended_rows
           [Record_ fieldnames; Record_ ["AGE"]] [["SEX"; "Sex"]] eq_refl).
Defined.

(** ** Rows appended by a run *)

Section Appended.

Variable site : Site.

(** The variables reached are the first of the pending ones. *)
Lemma completed_prefix (variables : list VariableSummary) :
  exists rest, variables = completed site variables ++ rest.
Proof.
  induction variables as [|v vs [rest IH]]; simpl; [now exists [] |].
  destruct (_scrape_variable_details (visit site (name v))).
  - exists rest. simpl. now rewrite <- IH.
  - now exists (v :: vs).
Qed.

Lemma pending_sublist (variables : list VariableSummary) (ledger : gset string) :
  pending variables ledger `sublist_of` variables.
Proof.
  unfold pending. induction variables as [|v vs IH]; simpl; [constructor |].
  destruct (not_scraped ledger v); now constructor.
Qed.

Lemma pending_new (variables : list VariableSummary) (ledger : gset string)
    (v : VariableSummary) :
  In v (pending variables ledger) -> name v ∉ ledger.
Proof.
  unfold pending. intros [_ H]%filter_In. unfold not_scraped in H.
  now apply bool_decide_eq_true_1 in H.
Qed.

Lemma pending_all (variables : list VariableSummary) (ledger : gset string) :
  (forall v, In v variables -> name v ∉ ledger) ->
  pending variables ledger = variables.
Proof.
  unfold pending. induction variables as [|v vs IH]; intros H; simpl; [reflexivity |].
  unfold not_scraped at 1. rewrite bool_decide_eq_true_2 by (apply H; now left).
  f_equal. apply IH. intros w Hw. apply H. now right.
Qed.

Lemma pending_app (a b : list VariableSummary) (ledger : gset string) :
  pending (a ++ b) ledger = pending a ledger ++ pending b ledger.
Proof. unfold pending. apply List.filter_app. Qed.

(** The ledger of a file made of the header and of rows of the program. *)
Lemma ledger_of_output_rows (variables : list VariableSummary) (x : string) :
  x ∈ _read_existing_variables
        (Some (Record_ fieldnames :: output_rows site variables)) <->
  exists v, In v variables /\ name v <> "" /\ x = strip (name v).
Proof.
  rewrite output_rows_of.
  change (Record_ fieldnames :: map Record_ (rows_of site variables))
    with (map Record_ (fieldnames :: rows_of site variables)).
  rewrite ledger_whole. unfold rows_of. split.
  - intros (row & w & (v & <- & Hv)%in_map_iff & Hd & Hw & ->).
    rewrite dict_row_row_data in Hd. injection Hd as <-. eauto.
  - intros (v & Hv & Hf & ->). exists (row_data v (detail_of site v)), (name v).
    split; [| split; [apply dict_row_row_data | auto]].
    apply in_map_iff. exists v. split; [reflexivity | exact Hv].
Qed.

Lemma ends_inside_record_output_rows (variables : list VariableSummary) :
  ends_inside_record (Record_ fieldnames :: output_rows site variables) = false.
Proof.
  rewrite output_rows_of.
  apply (ends_inside_record_whole (fieldnames :: rows_of site variables)).
Qed.

(** The run on a file that is absent or ends with a complete record, when
    every call on the file succeeds. *)
Lemma scrape_ices_data_boundary (disk : Disk)
    (output_csv : option (list stored)) (variables : list VariableSummary) :
  writable disk ->
  ends_inside_record (file_start output_csv) = false ->
  reach_dataset site = Ok tt ->
  _collect_all_variables (variables_table site) = Ok variables ->
  let todo := pending variables (_read_existing_variables output_csv) in
  (scrape_ices_data_on disk site output_csv).1
  = Some (file_start output_csv ++ output_rows site (completed site todo))
  /\ ((scrape_ices_data_on disk site output_csv).2 = Ok tt
      <-> completed site todo = todo).
Proof.
  intros Hdisk Hend Hreach Hcollect todo.
  destruct (scrape_ices_data_run disk site output_csv variables
              Hdisk Hreach Hcollect) as [Hfile Hresult].
  fold todo in Hfile, Hresult.
  rewrite append_rows_boundary in Hfile by exact Hend.
  now rewrite output_rows_of.
Qed.

End Appended.

(** X4: when every call on the file succeeds and the file is absent or ends
    with a complete record, the rows a run appends are rows of listed
    variables, in the order of the listing, and none of them has a name that
    was in the ledger. *)
Theorem appended_rows_are_new
    (disk : Disk) (site : Site) (output_csv : option (list stored))
    (variables : list VariableSummary) :
  writable disk ->
  ends_inside_record (file_start output_csv) = false ->
  reach_dataset site = Ok tt ->
  _collect_all_variables (variables_table site) = Ok variables ->
  exists done,
    (scrape_ices_data_on disk site output_csv).1
    = Some (file_start output_csv ++ output_rows site done)
    /\ done `sublist_of` variables
    /\ Forall (fun v => name v ∉ _read_existing_variables output_csv) done.
Proof.
  intros Hdisk Hend Hreach Hcollect.
  destruct (scrape_ices_data_boundary site disk output_csv variables
              Hdisk Hend Hreach Hcollect) as [Hfile _].
  set (todo := pending variables (_read_existing_variables output_csv)) in *.
  exists (completed site todo). split; [exact Hfile |].
  destruct (completed_prefix site todo) as [rest Hrest].
  split.
  - transitivity todo; [| apply pending_sublist].
    rewrite Hrest at 2. now apply sublist_inserts_r.
  - apply List.Forall_forall. intros v Hv.
    apply (pending_new variables). fold todo. rewrite Hrest.
    apply in_or_app. now left.
Qed.

Lemma appended_rows_are_new_witness :
  let site := {| reach_dataset := Ok tt;
                 variables_table := Ok [listed "AGE" "Age in years" "Num";
                                        listed "SEX" "Sex" "Char"];
                 visit := fun _ => shows [labelled_row "Label" "Foo"] |} in
  let old := [Record_ fieldnames;
              Record_ ["AGE"; "Age in years"; "Num"; "Foo"; ""; ""; ""; ""; ""]] in
  exists done,
    (scrape_ices_data_on sound site (Some old)).1
    = Some (file_start (Some old) ++ output_rows site done)
    /\ done `sublist_of`
         [{| name := "AGE"; description := "Age in years"; type := "Num" |};
          {| name := "SEX"; description := "Sex"; type := "Char" |}]
    /\ Forall (fun v => name v ∉ _read_existing_variables (Some old)) done.
Proof.
  intros site old.
  exact (appended_rows_are_new sound site (Some old)
    [{| name := "AGE"; description := "Age in years"; type := "Num" |};
     {| name := "SEX"; description := "Sex"; type := "Char" |}]
    writable_sound eq_refl eq_refl eq_refl).
Defined.

(** X5: after a run that starts without a file and reaches every variable,
    the ledger read back from the file is the set of the non-empty names of
    the listing. *)
Theorem ledger_after_complete_run
    (site : Site) (variables : list VariableSummary) :
  reach_dataset site = Ok tt ->
  _collect_all_variables (variables_table site) = Ok variables ->
  (forall v, In v variables ->
     exists d, _scrape_variable_details (visit site (name v)) = Ok d) ->
  forall x,
    x ∈ _read_existing_variables (scrape_ices_data site None).1 <->
    exists v, In v variables /\ name v <> "" /\ x = name v.
Proof.
  intros Hreach Hcollect Hall x. unfold scrape_ices_data.
  destruct (scrape_ices_data_boundary site sound None variables
              writable_sound eq_refl Hreach Hcollect) as [-> _].
  cbn [_read_existing_variables file_start app].
  change (pending variables ∅) with (pending variables (∅ : gset string)).
  rewrite pending_all by (intros v _; apply not_elem_of_empty).
  rewrite completed_all by exact Hall.
  change (x ∈ _read_existing_variables
                (Some (Record_ fieldnames :: output_rows site variables))
          <-> exists v, In v variables /\ name v <> "" /\ x = name v).
  rewrite ledger_of_output_rows. split.
  - intros (v & Hv & Hne & ->). exists v.
    rewrite (collected_names_stripped _ _ _ Hcollect Hv). auto.
  - intros (v & Hv & Hne & ->). exists v.
    rewrite (collected_names_stripped _ _ _ Hcollect Hv). auto.
Qed.

Lemma ledger_after_complete_run_witness :
  let site := {| reach_dataset := Ok tt;
                 variables_table := Ok [listed "AGE" "Age in years" "Num";
                                        listed "SEX" "Sex" "Char"];
                 visit := fun _ => shows [labelled_row "Label" "Foo"] |} in
  "SEX" ∈ _read_existing_variables (scrape_ices_data site None).1.
Proof.
  intros site.
  apply (ledger_after_complete_run site
    [{| name := "AGE"; description := "Age in years"; type := "Num" |};
     {| name := "SEX"; description := "Sex"; type := "Char" |}]
    eq_refl eq_refl).
  - intros v _. eexists. reflexivity.
  - exists {| name := "SEX"; description := "Sex"; type := "Char" |}.
    split; [right; now left | split; [discriminate | reflexivity]].
Defined.

(** X6: a run that starts without a file and ends at some variable with the
    exception raised by its visit, followed by a run on the same listing in
    which every variable is reached, leaves the header and one row for each
    listed variable, in the order of the listing: the rows of the first run
    for the variables it reached, the rows of the second run for the others.
    The names of the listing are distinct and not empty, and every call on
    the file succeeds in both runs. *)
Theorem interrupted_run_resumes
    (site1 site2 : Site) (variables : list VariableSummary) :
  reach_dataset site1 = Ok tt ->
  reach_dataset site2 = Ok tt ->
  _collect_all_variables (variables_table site1) = Ok variables ->
  _collect_all_variables (variables_table site2) = Ok variables ->
  NoDup (map name variables) ->
  Forall (fun v => name v <> "") variables ->
  (forall v, In v variables ->
     exists d, _scrape_variable_details (visit site2 (name v)) = Ok d) ->
  exists done rest,
    variables = done ++ rest
    /\ (scrape_ices_data site1 None).1
       = Some (Record_ fieldnames :: output_rows site1 done)
    /\ scrape_ices_data site2 (scrape_ices_data site1 None).1
       = (Some (Record_ fieldnames
                :: output_rows site1 done ++ output_rows site2 rest),
          Ok tt).
Proof.
  intros Hreach1 Hreach2 Hcollect1 Hcollect2 Hdup Hnames Hall.
  unfold scrape_ices_data.
  destruct (scrape_ices_data_boundary site1 sound None variables
              writable_sound eq_refl Hreach1 Hcollect1) as [Hfile1 _].
  cbn [_read_existing_variables file_start app] in Hfile1.
  change (pending variables ∅) with (pending variables (∅ : gset string)) in Hfile1.
  rewrite pending_all in Hfile1 by (intros v _; apply not_elem_of_empty).
  destruct (completed_prefix site1 variables) as [rest Hrest].
  set (done := completed site1 variables) in *.
  exists done, rest. split; [exact Hrest | split; [exact Hfile1 |]].
  rewrite Hfile1.
  set (file1 := Record_ fieldnames :: output_rows site1 done).
  assert (pending variables (_read_existing_variables (Some file1)) = rest)
    as Hpending.
  { rewrite Hrest at 1. rewrite pending_app.
    rewrite pending_nil, pending_all; [reflexivity | |].
    - intros v Hv Hin.
      apply ledger_of_output_rows in Hin as (w & Hw & _ & Hvw).
      rewrite (collected_names_stripped _ _ w Hcollect1) in Hvw
        by (rewrite Hrest; apply in_or_app; now left).
      rewrite Hrest, map_app in Hdup.
      apply NoDup_app in Hdup as (_ & Hdisj & _).
      apply (Hdisj (name w)).
      + apply list_elem_of_In, in_map, Hw.
      + rewrite <- Hvw. apply list_elem_of_In, in_map, Hv.
    - intros v Hv. apply ledger_of_output_rows. exists v.
      assert (In v variables) as Hin by (rewrite Hrest; apply in_or_app; now left).
      split; [exact Hv | split].
      + rewrite List.Forall_forall in Hnames. now apply Hnames.
      + symmetry. now apply (collected_names_stripped _ _ v Hcollect1). }
  destruct (scrape_ices_data_boundary site2 sound (Some file1) variables
              writable_sound (ends_inside_record_output_rows site1 done)
              Hreach2 Hcollect2) as [Hfile2 Hresult2].
  rewrite Hpending in Hfile2, Hresult2.
  assert (completed site2 rest = rest) as Hdone2.
  { apply completed_all. intros v Hv. apply Hall. rewrite Hrest.
    apply in_or_app. now right. }
  rewrite Hdone2 in Hfile2. apply Hresult2 in Hdone2.
  destruct (scrape_ices_data_on sound site2 (Some file1)) as [file2 result2].
  simpl in Hfile2, Hdone2. rewrite Hfile2, Hdone2. reflexivity.
Qed.

Lemma interrupted_run_resumes_witness :
  let table := Ok [listed "AGE" "Age in years" "Num"; listed "SEX" "Sex" "Char"] in
  let site1 := {| reach_dataset := Ok tt; variables_table := table;
                  visit := fun n => if String.eqb n "SEX" then unreachable
                                    else shows [labelled_row "Label" "Foo"] |} in
  let site2 := {| reach_dataset := Ok tt; variables_table := table;
                  visit := fun _ => shows [labelled_row "Label" "Foo"] |} in
  exists done rest,
    [{| name := "AGE"; description := "Age in years"; type := "Num" |};
     {| name := "SEX"; description := "Sex"; type := "Char" |}] = done ++ rest
    /\ (scrape_ices_data site1 None).1
       = Some (Record_ fieldnames :: output_rows site1 done)
    /\ scrape_ices_data site2 (scrape_ices_data site1 None).1
       = (Some (Record_ fieldnames
                :: output_rows site1 done ++ output_rows site2 rest),
          Ok tt).
Proof.
  intros table site1 site2.
  apply (interrupted_run_resumes site1 site2
    [{| name := "AGE"; description := "Age in years"; type := "Num" |};
     {| name := "SEX"; description := "Sex"; type := "Char" |}]
    eq_refl eq_refl eq_refl eq_refl).
  - compute_done.
  - repeat constructor; simpl; discriminate.
  - intros v _. eexists. reflexivity.
Defined.

(** ** The expansion controls and the visit of a variable *)

(** X7: the expansion of the "more" controls ends normally exactly when
    every selector can be counted and the visibility of every button it
    locates can be queried; whether a click succeeds plays no part. *)
Theorem more_buttons_click_failures_absorbed
    (selectors : list (outcome (list Button))) :
  _handle_more_buttons selectors = Ok tt
  <-> forallb queries_answered selectors = true.
Proof.
  induction selectors as [|more_buttons rest IH]; simpl; [split; reflexivity |].
  destruct more_buttons as [buttons|e]; simpl; [| split; discriminate].
  pose proof (click_visible_ok buttons) as Hc.
  destruct (click_visible buttons) as [[]|e]; simpl.
  - rewrite (proj1 Hc eq_refl). exact IH.
  - destruct (forallb visibility_known buttons); [| split; discriminate].
    discriminate (proj2 Hc eq_refl).
Qed.

Lemma scrape_variable_details_rows
    (visit : DetailVisit) (detailed_data : gmap string string) :
  _scrape_variable_details visit = Ok detailed_data ->
  exists rows, detailed_data = fold_left detail_row_step rows ∅.
Proof.
  unfold _scrape_variable_details.
  destruct (navigation visit) as [[]|e]; simpl; [| discriminate].
  destruct (first_view visit) as [rows1|e]; simpl; [| discriminate].
  destruct (_handle_more_buttons (more_controls visit)) as [[]|e]; simpl;
    [| discriminate].
  destruct (expanded_view visit) as [rows2|e]; simpl; [| discriminate].
  intros [= <-]. eauto.
Qed.

(** X8: the visit of a variable returns exactly when the navigation, the
    count of the rows of the first view, the expansion of the controls and
    the count of the rows of the expanded view all succeed, and what it
    returns is read from the expanded view alone: a first view that cannot be
    counted makes the visit fail although its rows are not used. *)
Theorem variable_details_from_expanded_view
    (visit : DetailVisit) (detailed_data : gmap string string) :
  _scrape_variable_details visit = Ok detailed_data
  <-> navigation visit = Ok tt
      /\ (exists rows, first_view visit = Ok rows)
      /\ _handle_more_buttons (more_controls visit) = Ok tt
      /\ exists rows, expanded_view visit = Ok rows
           /\ detailed_data = fold_left detail_row_step rows ∅.
Proof.
  unfold _scrape_variable_details.
  destruct (navigation visit) as [[]|e]; simpl;
    [| split; [discriminate | now intros [? _]]].
  destruct (first_view visit) as [rows1|e]; simpl;
    [| split; [discriminate | now intros (_ & [? ?] & _)]].
  destruct (_handle_more_buttons (more_controls visit)) as [[]|e]; simpl;
    [| split; [discriminate | now intros (_ & _ & ? & _)]].
  destruct (expanded_view visit) as [rows2|e]; simpl.
  - split.
    + intros [= <-]. eauto 10.
    + intros (_ & _ & _ & rows & [= <-] & ->). reflexivity.
  - split; [discriminate | now intros (_ & _ & _ & ? & ? & _)].
Qed.

Section DetailValues.

Lemma first_keyword_known (label_text key : string) :
  first_keyword label_text = Some key -> key ∈ detail_keys.
Proof.
  unfold first_keyword, keywords, detail_keys. cbn [List.find fst].
  repeat (match goal with
          | |- context [contains ?k label_text] => destruct (contains k label_text)
          end; [intros [= <-]; compute_done |]).
  discriminate.
Qed.

Lemma row_field_known (row : DetailRow) (key value : string) :
  row_field row = Some (key, value) ->
  key ∈ detail_keys /\ strip value = value.
Proof.
  unfold row_field.
  destruct (detail_cells row) as [[|label_cell [|value_cell cells]]|e];
    try discriminate.
  destruct (text_content label_cell) as [t|e]; [| discriminate].
  destruct (first_keyword (strip (or_empty t))) as [k|] eqn:E; [| discriminate].
  intros [= <- <-]. split; [eapply first_keyword_known, E | apply cell_text_stripped].
Qed.

Lemma detail_view_known (rows : list DetailRow) (key value : string) :
  fold_left detail_row_step rows ∅ !! key = Some value ->
  key ∈ detail_keys /\ strip value = value.
Proof.
  rewrite detail_fold_last, lookup_empty.
  destruct (last (values_for key rows)) as [v|] eqn:E; [| discriminate].
  intros [= <-]. apply last_Some_elem_of in E. unfold values_for in E.
  apply list_elem_of_omap in E as (row & _ & Hrow).
  destruct (row_field row) as [[k v']|] eqn:Hf; [| discriminate].
  destruct (decide (k = key)) as [-> | _]; [| discriminate].
  injection Hrow as ->. eapply row_field_known, Hf.
Qed.

End DetailValues.

(** X9: whatever the detail view shows, the detail of a variable has no key
    besides label, type_length, available_in, format, value and links, and
    none of its values begins or ends with a whitespace character. *)
Theorem variable_details_keys_and_values
    (visit : DetailVisit) (detailed_data : gmap string string)
    (key value : string) :
  _scrape_variable_details visit = Ok detailed_data ->
  detailed_data !! key = Some value ->
  key ∈ detail_keys /\ bare value.
Proof.
  intros [rows ->]%scrape_variable_details_rows Hv.
  apply detail_view_known in Hv as [Hk Hs].
  split; [exact Hk |]. rewrite <- Hs. apply strip_bare.
Qed.

Lemma variable_details_keys_and_values_witness :
  _scrape_variable_details (shows [labelled_row "Date Format" "  YYYY <br> "])
  = Ok (<["format" := "YYYY"]> ∅)
  /\ "format" ∈ detail_keys /\ bare "YYYY".
Proof.
  assert (_scrape_variable_details
            (shows [labelled_row "Date Format" "  YYYY <br> "])
          = Ok (<["format" := "YYYY"]> ∅)) as H by (vm_compute; reflexivity).
  split; [exact H |].
  apply (variable_details_keys_and_values _ _ "format" "YYYY" H).
  compute_done.
Defined.

(** ** Labels and keywords *)

Section Containment.

Lemma startswith_split (n s : string) :
  startswith n s = true <-> exists b, s = n +:+ b.
Proof.
  revert s. induction n as [|a n IH]; intros s.
  - split; [intros _; now exists s | reflexivity].
  - destruct s as [|c s]; cbn [startswith].
    + split; [discriminate | intros [b [=]]].
    + rewrite andb_true_iff, Ascii.eqb_eq, IH. split.
      * intros [-> [b ->]]. now exists b.
      * intros [b [= -> ->]]. eauto.
Qed.

(** [needle in s] holds exactly when [s] has [needle] somewhere inside. *)
Lemma contains_split (n s : string) :
  contains n s = true <-> exists a b, s = a +:+ n +:+ b.
Proof.
  induction s as [|c s IH].
  - cbn [contains]. rewrite orb_false_r, startswith_split. split.
    + intros [b ->]. now exists "", b.
    + intros (a & b & H). destruct a; [now exists b | discriminate].
  - cbn [contains]. rewrite orb_true_iff, startswith_split, IH. split.
    + intros [[b ->] | (a & b & ->)]; [now exists "", b | now exists (String c a), b].
    + intros ([|c' a] & b & H); [left; now exists b | right].
      injection H as -> ->. eauto.
Qed.

Lemma clean_word_tail (a : ascii) (kw : string) :
  kw <> "" -> rstrip (String a kw) = String a kw -> rstrip kw = kw.
Proof.
  intros Hne. simpl. destruct (rstrip kw) as [|d r] eqn:E.
  - destruct (is_space a); intros H; [discriminate |].
    injection H as <-. contradiction.
  - now intros [= <-].
Qed.

Lemma rstrip_cons_cases (c : ascii) (s : string) :
  (rstrip (String c s) = "" /\ rstrip s = "" /\ is_space c = true)
  \/ rstrip (String c s) = String c (rstrip s).
Proof.
  simpl. destruct (rstrip s) as [|d r]; [| now right].
  destruct (is_space c); [now left | now right].
Qed.

Lemma startswith_nil_r (kw : string) : kw <> "" -> startswith kw "" = false.
Proof. now destruct kw. Qed.

Lemma startswith_rstrip (s kw : string) :
  kw <> "" -> rstrip kw = kw ->
  startswith kw (rstrip s) = startswith kw s.
Proof.
  revert kw. induction s as [|c s IH]; intros kw Hne Hkw; [reflexivity |].
  destruct kw as [|a kw]; [contradiction |].
  assert (kw = "" \/ (kw <> "" /\ rstrip kw = kw)) as Htail.
  { destruct kw as [|b kw]; [now left | right].
    split; [discriminate | eapply clean_word_tail; [discriminate | exact Hkw]]. }
  destruct (rstrip_cons_cases c s) as [(-> & Hs & Hc) | ->].
  - cbn [startswith].
    destruct (Ascii.eqb_spec a c) as [-> | _]; [| reflexivity]. cbn [andb].
    destruct Htail as [-> | [Hne' Hkw']].
    + simpl in Hkw. rewrite Hc in Hkw. discriminate.
    + rewrite <- (IH kw Hne' Hkw'), Hs. symmetry. now apply startswith_nil_r.
  - cbn [startswith]. f_equal.
    destruct Htail as [-> | [Hne' Hkw']]; [reflexivity | now apply IH].
Qed.

Lemma contains_nil_r (kw : string) : kw <> "" -> contains kw "" = false.
Proof. now destruct kw. Qed.

Lemma contains_rstrip (s kw : string) :
  clean_word kw -> contains kw (rstrip s) = contains kw s.
Proof.
  intros (Hne & _ & Hkw). induction s as [|c s IH]; [reflexivity |].
  cbn [contains]. rewrite <- IH, <- (startswith_rstrip (String c s)) by assumption.
  destruct (rstrip_cons_cases c s) as [(-> & -> & _) | ->].
  - now rewrite contains_nil_r, startswith_nil_r.
  - reflexivity.
Qed.

Lemma contains_lstrip (s kw : string) :
  clean_word kw -> contains kw (lstrip s) = contains kw s.
Proof.
  intros (Hne & Hstart & _). induction s as [|c s IH]; [reflexivity |].
  cbn [lstrip]. destruct (is_space c) eqn:Hc; [| reflexivity].
  rewrite IH. cbn [contains].
  destruct kw as [|a kw]; [contradiction |]. cbn [startswith].
  destruct (Ascii.eqb_spec a c) as [-> | _]; [| reflexivity].
  simpl in Hstart. congruence.
Qed.

(** Stripping a text neither adds nor removes an occurrence of a keyword
    without surrounding whitespace. *)
Lemma contains_strip (s kw : string) :
  clean_word kw -> contains kw (strip s) = contains kw s.
Proof.
  intros H. unfold strip. now rewrite contains_rstrip, contains_lstrip.
Qed.

End Containment.

(** X10: stripping the label does not change the field it is mapped to. *)
Theorem label_key_ignores_surrounding_whitespace (label_text : string) :
  label_key (strip label_text) = label_key label_text.
Proof.
  unfold label_key.
  rewrite !contains_strip by (repeat split; (discriminate || reflexivity)).
  reflexivity.
Qed.

(** X11: a label is mapped to the field [label] exactly when the word
    "Label" occurs somewhere in it, whatever other keywords it holds. *)
Theorem label_key_label (label_text : string) :
  label_key label_text = Some "label"
  <-> exists a b, label_text = a +:+ "Label" +:+ b.
Proof.
  rewrite <- contains_split. unfold label_key.
  destruct (contains "Label" label_text); [split; reflexivity |].
  repeat (match goal with
          | |- context [contains ?k label_text] => destruct (contains k label_text)
          end; [split; discriminate |]).
  split; discriminate.
Qed.

(** ** The sanitised dataset name *)

Section SafeName.

Lemma map_chars_length (f : ascii -> ascii) (s : string) :
  String.length (map_chars f s) = String.length s.
Proof. induction s as [|c s IH]; simpl; [reflexivity | now rewrite IH]. Qed.

Lemma all_chars_map_chars (p : ascii -> bool) (f : ascii -> ascii) (s : string) :
  (forall c, p (f c) = true) -> all_chars p (map_chars f s) = true.
Proof. intros H. induction s as [|c s IH]; simpl; [reflexivity | now rewrite H, IH]. Qed.

Lemma hyphenate_safe (c : ascii) :
  not_char " " (hyphenate c) && not_char ":" (hyphenate c) = true.
Proof.
  unfold hyphenate, not_char.
  destruct (Ascii.eqb c " ") eqn:E1; [reflexivity |].
  destruct (Ascii.eqb c ":") eqn:E2; [reflexivity |]. simpl.
  now rewrite E1, E2.
Qed.

End SafeName.

(** X12: the dataset part of the default file name is as long as the
    dataset name and holds neither a space nor a colon. *)
Theorem safe_dataset_name_has_no_space_or_colon (dataset_name : string) :
  let safe_dataset_name := replace ":" "-" (replace " " "-" dataset_name) in
  String.length safe_dataset_name = String.length dataset_name
  /\ all_chars (fun c => not_char " " c && not_char ":" c) safe_dataset_name
     = true.
Proof.
  intros safe_dataset_name. subst safe_dataset_name.
  rewrite safe_dataset_name_hyphenated. split.
  - apply map_chars_length.
  - apply all_chars_map_chars, hyphenate_safe.
Qed.

(** ** More on the text normaliser *)

Section PlainText.

Lemma line_texts_elements (items : list item) :
  forallb is_element items = true ->
  Forall (fun l => l = "") (line_texts items).
Proof.
  induction items as [|[t|body] rest IH]; simpl; [now repeat constructor | discriminate |].
  intros H. destruct (is_break body); [constructor; [reflexivity |] |]; now apply IH.
Qed.

Lemma filter_empty_lines (ls : list string) :
  Forall (fun l => l = "") ls ->
  filter (fun line => line <> "") (map line_text ls) = [].
Proof.
  induction 1 as [|l ls -> _ IH]; [reflexivity |].
  cbn [map]. rewrite filter_cons. exact IH.
Qed.

Lemma br_text_plain (t : string) :
  all_chars (not_char "<") t = true ->
  contains "__" t = false ->
  br_text t = strip (re_sub match_newlines " " t).
Proof.
  intros Ht Hph.
  transitivity (br_text (render [Text t])).
  { f_equal. cbn [render render_item]. now rewrite append_nil_r. }
  rewrite br_text_fragment.
  - unfold fragment_text. cbn [line_texts map]. rewrite append_nil_r, filter_cons.
    fold (line_text t).
    destruct (decide (line_text t <> "")) as [_ | E]; [reflexivity |].
    apply dec_stable in E. now rewrite E.
  - cbn [forallb well_formed]. now rewrite Ht.
  - cbn [line_texts forallb]. now rewrite append_nil_r, Hph.
Qed.

End PlainText.

(** X13: for a text without [<] and without double underscore, reading it
    as inner HTML and reading it as plain text content after a failure of the
    inner HTML give the same result. *)
Theorem plain_text_same_on_both_paths
    (t : string) (content : outcome (option string)) (e : string) :
  all_chars (not_char "<") t = true ->
  contains "__" t = false ->
  _extract_text_with_br_tags {| inner_html := Ok t; text_content := content |}
  = _extract_text_with_br_tags
      {| inner_html := Raise e; text_content := Ok (Some t) |}.
Proof.
  intros Ht Hph. rewrite !extract_text_ok. unfold cell_text.
  cbn [inner_html text_content or_empty]. f_equal. now apply br_text_plain.
Qed.

Lemma plain_text_same_on_both_paths_witness :
  _extract_text_with_br_tags
    {| inner_html := Ok "  Age in
years "; text_content := Raise "detached" |}
  = _extract_text_with_br_tags
      {| inner_html := Raise "Timeout"; text_content := Ok (Some "  Age in
years ") |}.
Proof.
  apply (plain_text_same_on_both_paths "  Age in
years " (Raise "detached") "Timeout"); reflexivity.
Defined.

(** X14: a fragment made of elements only, markers or not, gives the empty
    text. *)
Theorem only_elements_give_empty_text (items : list item) :
  forallb well_formed items = true ->
  forallb is_element items = true ->
  br_text (render items) = "".
Proof.
  intros Hwf Hel. pose proof (line_texts_elements items Hel) as Hlines.
  rewrite br_text_fragment.
  - unfold fragment_text. now rewrite filter_empty_lines.
  - exact Hwf.
  - apply forallb_forall. intros l Hl.
    rewrite List.Forall_forall in Hlines. now rewrite (Hlines l Hl).
Qed.

Lemma only_elements_give_empty_text_witness :
  br_text "<a href=x><img src=icon.png><br/></a>" = "".
Proof.
  apply (only_elements_give_empty_text
           [Element "a href=x"; Element "img src=icon.png"; Element "br/";
            Element "/a"]); reflexivity.
Defined.

(** X15: in every summary the indexer returns, neither the name nor the
    description nor the type begins or ends with a whitespace character. *)
Theorem collected_summaries_stripped
    (table : outcome (list ListingRow)) (variables : list VariableSummary) :
  _collect_all_variables table = Ok variables ->
  Forall (fun v => bare (name v) /\ bare (description v) /\ bare (type v))
    variables.
Proof.
  destruct table as [rows|e]; [| discriminate].
  rewrite collect_all_summaries. intros [= <-].
  apply Forall_forall. intros v (row & _ & Hrow)%list_elem_of_omap.
  unfold row_summary in Hrow. destruct (is_data_row row); [| discriminate].
  destruct (listing_cells row) as [cells|e]; [| discriminate].
  injection Hrow as <-. cbn [name description type]. unfold text_at.
  assert (forall locator, bare (cell_text locator)) as Hcell.
  { intros locator. rewrite <- cell_text_stripped. apply strip_bare. }
  repeat split; try apply Hcell;
    match goal with
    | |- context [cells !! ?i] =>
        destruct (cells !! i); [apply Hcell | exact I]
    end.
Qed.

Lemma collected_summaries_stripped_witness :
  _collect_all_variables (Ok [listed " AGE " "Age in years" "<b>Num</b> "])
  = Ok [{| name := "AGE"; description := "Age in years"; type := "Num" |}]
  /\ Forall (fun v => bare (name v) /\ bare (description v) /\ bare (type v))
       [{| name := "AGE"; description := "Age in years"; type := "Num" |}].
Proof.
  assert (_collect_all_variables
            (Ok [listed " AGE " "Age in years" "<b>Num</b> "])
          = Ok [{| name := "AGE"; description := "Age in years";
                   type := "Num" |}]) as H by (vm_compute; reflexivity).
  split; [exact H |].
  exact (collected_summaries_stripped _ _ H).
Defined.

(** ** Rows of the detail view that contribute nothing *)

Section SkippedRows.

Lemma detail_fold_app (before after : list DetailRow) (data : gmap string string) :
  fold_left detail_row_step (before ++ after) data
  = fold_left detail_row_step after (fold_left detail_row_step before data).
Proof. apply fold_left_app. Qed.

Lemma detail_row_skipped (bad : DetailRow) (before after : list DetailRow) :
  row_field bad = None ->
  _extract_detailed_view (Ok (before ++ bad :: after))
  = _extract_detailed_view (Ok (before ++ after)).
Proof.
  intros H. rewrite !extract_detailed_view_rows, !detail_fold_app. f_equal.
  cbn [fold_left]. now rewrite detail_row_step_field, H.
Qed.

End SkippedRows.

(** X16: a row of the detail view whose cells cannot be counted, that has
    fewer than two cells, whose label cannot be read or whose label holds no
    keyword leaves the result as it is without it. *)
Theorem detail_rows_without_field_are_skipped
    (bad : DetailRow) (before after : list DetailRow) :
  (exists e, detail_cells bad = Raise e)
  \/ (exists cells, detail_cells bad = Ok cells /\ length cells < 2)
  \/ (exists label_cell value_cell cells,
        detail_cells bad = Ok (label_cell :: value_cell :: cells)
        /\ ((exists e, text_content label_cell = Raise e)
            \/ exists t, text_content label_cell = Ok t
                 /\ label_key (strip (or_empty t)) = None)) ->
  _extract_detailed_view (Ok (before ++ bad :: after))
  = _extract_detailed_view (Ok (before ++ after)).
Proof.
  intros H. apply detail_row_skipped. unfold row_field.
  destruct H as [[e ->] | [(cells & -> & Hlen) | (l & v & cells & -> & H)]].
  - reflexivity.
  - destruct cells as [|c0 [|c1 cells]]; [reflexivity | reflexivity | simpl in Hlen; lia].
  - destruct H as [[e ->] | (t & -> & H)]; [reflexivity |].
    rewrite label_key_first_keyword in H. now rewrite H.
Qed.

Lemma detail_rows_without_field_are_skipped_witness :
  _extract_detailed_view
    (Ok ([labelled_row "Label" "Foo"]
         ++ {| detail_cells := Ok [text_cell "Notes"; text_cell "none"] |}
         :: [labelled_row "Format" "YYYY"]))
  = _extract_detailed_view
      (Ok ([labelled_row "Label" "Foo"] ++ [labelled_row "Format" "YYYY"])).
Proof.
  apply detail_rows_without_field_are_skipped.
  right. right. exists (text_cell "Notes"), (text_cell "none"), [].
  split; [reflexivity |]. right. exists (Some "Notes"). split; reflexivity.
Defined.

(** ** The name column of a foreign header *)

Section ColumnPosition.

Lemma fold_none_in (keys : list string)
    (d : gmap string (option string)) (k : string) :
  k ∈ keys ->
  fold_left (fun d key => <[key := None]> d) keys d !! k = Some None.
Proof.
  revert d. induction keys as [|key keys IH]; intros d Hk; [now apply elem_of_nil in Hk |].
  cbn [fold_left]. destruct (decide (k ∈ keys)) as [Hin | Hout].
  - now apply IH.
  - rewrite fold_none_other by exact Hout.
    apply elem_of_cons in Hk as [-> | Hin]; [apply lookup_insert_eq | contradiction].
Qed.

(** With distinct column names a record gives each column the field at its
    position, and [None] when the record is too short to have it. *)
Lemma dict_row_position (names row : list string) (i : nat) (k : string)
    (d : gmap string (option string)) :
  NoDup names -> names !! i = Some k ->
  fold_left (fun d key => <[key := None]> d) (List.skipn (length row) names)
    (fold_left (fun d kv => <[kv.1 := Some kv.2]> d) (zip names row) d) !! k
  = Some (row !! i).
Proof.
  revert row i d. induction names as [|a names IH]; intros row i d Hdup Hi;
    [discriminate |].
  apply NoDup_cons in Hdup as [Ha Hdup].
  destruct row as [|f row].
  - cbn [zip zip_with fold_left length List.skipn]. destruct i as [|i].
    + injection Hi as <-.
      rewrite fold_none_other by exact Ha. apply lookup_insert_eq.
    + rewrite fold_none_in; [reflexivity |].
      apply list_elem_of_lookup. eauto.
  - change (zip (a :: names) (f :: row)) with ((a, f) :: zip names row).
    change (List.skipn (length (f :: row)) (a :: names))
      with (List.skipn (length row) names).
    cbn [fold_left fst snd]. destruct i as [|i].
    + injection Hi as <-.
      rewrite fold_none_other by (intros H%elem_of_skipn; contradiction).
      rewrite fold_some_other; [apply lookup_insert_eq |].
      intros [x y] Hin%elem_of_zip_l. simpl. now intros ->.
    + change ((f :: row) !! S i) with (row !! i). now apply IH.
Qed.

End ColumnPosition.

(** X17: when the reader hands over first a header of distinct column names
    with [variable_name] at some position, the ledger holds exactly the
    fields at that position, without their surrounding whitespace, of the
    records handed over after the header that are long enough to have the
    field and have it not empty. *)
Theorem ledger_reads_name_column
    (content : list stored) (names : list string) (i : nat)
    (rows : list (list string)) (x : string) :
  yielded content = names :: rows ->
  NoDup names -> names !! i = Some "variable_name" ->
  x ∈ _read_existing_variables (Some content) <->
  exists row v, In row rows
    /\ row !! i = Some v /\ v <> "" /\ trimmed_of v x.
Proof.
  intros Hy Hdup Hi. rewrite (read_existing_elem _ _ _ _ Hy).
  assert (forall row, dict_row names row !! "variable_name" = Some (row !! i))
    as Hpos by (intros row; now apply dict_row_position).
  split.
  - intros (row & v & Hin & Hd & Hv & ->). exists row, v.
    rewrite Hpos in Hd. injection Hd as Hd.
    auto using strip_trimmed_of.
  - intros (row & v & Hin & Hd & Hv & Ht). exists row, v.
    rewrite Hpos, Hd. auto using trimmed_of_strip.
Qed.

Lemma ledger_reads_name_column_witness :
  "AGE" ∈ _read_existing_variables
            (Some [Record_ ["id"; "variable_name"];
                   Record_ ["1"; " AGE "]; Record_ ["2"]]).
Proof.
  apply (ledger_reads_name_column
           [Record_ ["id"; "variable_name"]; Record_ ["1"; " AGE "]; Record_ ["2"]]
           ["id"; "variable_name"] 1 [["1"; " AGE "]; ["2"]] "AGE" eq_refl).
  - compute_done.
  - reflexivity.
  - exists ["1"; " AGE "], " AGE ".
    split; [now left | split; [reflexivity | split; [discriminate |]]].
    exact (strip_trimmed_of " AGE ").
Defined.
